(** * The subtitle-burn pipeline of [VideoService]
    (src/src/services/translation.service.ts, lines 343-525), with the
    parts of [TranslationService], [WhisperService] and the transcription
    controller that feed it.

    JavaScript numbers are IEEE-754 binary64 values, embedded with the
    Standard Library's executable reference semantics [SpecFloat]
    (precision 53, emax 1024).  Strings are [String.string].  The
    file system and the external processes are threaded explicitly
    through a small error/state monad. *)

From Stdlib Require Import ZArith String Ascii List Bool Lia.
From Stdlib.Floats Require Import SpecFloat.
Import ListNotations.
Open Scope string_scope.

(* ------------------------------------------------------------------ *)
(** ** JavaScript numbers and the few built-ins the service uses *)

Module Js.

Definition number := spec_float.

Definition prec : Z := 53.
Definition emax : Z := 1024.

(** An integer literal, rounded to the nearest double. *)
Definition of_Z (z : Z) : number := binary_normalize prec emax z 0 false.

(** A decimal literal [m * 10^-d] as the parser reads it: correctly rounded. *)
Definition lit (m : Z) (d : nat) : number :=
  SFdiv prec emax (of_Z m) (of_Z (10 ^ Z.of_nat d)).

Definition div (x y : number) : number := SFdiv prec emax x y.
Definition mul (x y : number) : number := SFmul prec emax x y.

(** [x % y]: the exact remainder of the truncated quotient, with the sign
    of the dividend (ECMA-262 Number::remainder). *)
Definition rem (x y : number) : number :=
  match x, y with
  | S754_nan, _ | _, S754_nan => S754_nan
  | S754_infinity _, _ => S754_nan
  | _, S754_zero _ => S754_nan
  | S754_zero s, _ => S754_zero s
  | S754_finite _ _ _, S754_infinity _ => x
  | S754_finite sx mx ex, S754_finite _ my ey =>
      let e := Z.min ex ey in
      let X := Z.shiftl (Zpos mx) (ex - e) in
      let Y := Z.shiftl (Zpos my) (ey - e) in
      let r := Z.modulo X Y in
      binary_normalize prec emax (if sx then Z.opp r else r) e sx
  end.

(** [Math.floor]. *)
Definition floor (x : number) : number :=
  match x with
  | S754_finite s m e =>
      if Z.leb 0 e then x
      else if s then
        binary_normalize prec emax
          (Z.opp (Z.shiftr (Zpos m + Z.shiftl 1 (- e) - 1) (- e))) 0 true
      else binary_normalize prec emax (Z.shiftr (Zpos m) (- e)) 0 false
  | _ => x
  end.

(** The integer value of an integral number (0 for the non-finite ones). *)
Definition to_Z (x : number) : Z :=
  match x with
  | S754_finite s m e =>
      let v := if Z.leb 0 e then Z.shiftl (Zpos m) e
               else Z.shiftr (Zpos m) (- e) in
      if s then Z.opp v else v
  | _ => 0
  end.

Fixpoint digits_rev (fuel : nat) (base n : Z) : list Z :=
  match fuel with
  | O => []
  | S f => if Z.ltb n base then [n]
           else Z.modulo n base :: digits_rev f base (Z.div n base)
  end.

Definition digit_char (d : Z) : ascii :=
  if Z.ltb d 10 then ascii_of_nat (48 + Z.to_nat d)
  else ascii_of_nat (87 + Z.to_nat d).  (* lower-case 'a'.. *)

Definition string_of_chars (l : list ascii) : string :=
  fold_right String EmptyString l.

(** The digits of a non-negative integer in the given radix (2..36),
    most significant first, lower-case letters. *)
Definition radix_string (base n : Z) : string :=
  string_of_chars
    (rev (map digit_char (digits_rev (S (Z.to_nat (Z.log2 (Z.max n 1)))) base n))).

(** [Number.prototype.toString(radix)] on an integer value. *)
Definition int_toString (base z : Z) : string :=
  if Z.ltb z 0 then "-" ++ radix_string base (Z.opp z) else radix_string base z.

(** [Number.prototype.toString()] on the integral values [Math.floor]
    returns.  Integral values of magnitude at least 10^21 are printed in
    exponent form by JavaScript; they arise only for durations of more
    than 3.6e24 seconds and are printed here in plain decimal. *)
Definition num_toString (x : number) : string :=
  match x with
  | S754_nan => "NaN"
  | S754_infinity false => "Infinity"
  | S754_infinity true => "-Infinity"
  | S754_zero _ => "0"
  | S754_finite _ _ _ => int_toString 10 (to_Z x)
  end.

(** [String.prototype.padStart(n, c)] with a one-character pad. *)
Definition padStart (n : nat) (c : ascii) (s : string) : string :=
  string_of_chars (repeat c (n - String.length s)) ++ s.

End Js.

(* ------------------------------------------------------------------ *)
(** ** formatSRTTime (lines 467-473) *)

Definition formatSRTTime (seconds : Js.number) : string :=
  let hours := Js.floor (Js.div seconds (Js.of_Z 3600)) in
  let minutes := Js.floor (Js.div (Js.rem seconds (Js.of_Z 3600)) (Js.of_Z 60)) in
  let secs := Js.floor (Js.rem seconds (Js.of_Z 60)) in
  let milliseconds := Js.floor (Js.mul (Js.rem seconds (Js.of_Z 1)) (Js.of_Z 1000)) in
  Js.padStart 2 "0" (Js.num_toString hours) ++ ":" ++
  Js.padStart 2 "0" (Js.num_toString minutes) ++ ":" ++
  Js.padStart 2 "0" (Js.num_toString secs) ++ "," ++
  Js.padStart 3 "0" (Js.num_toString milliseconds).






(* ------------------------------------------------------------------ *)
(** ** String built-ins used by [hexToBGR] *)

Module JsStr.

(** [s.replace(c, "")] with a one-character pattern: only the first
    occurrence is removed. *)
Fixpoint replace_first (c : ascii) (s : string) : string :=
  match s with
  | EmptyString => EmptyString
  | String d rest => if Ascii.eqb c d then rest else String d (replace_first c rest)
  end.

(** [s.substr(start, len)] for non-negative arguments. *)
Definition substr (start len : nat) (s : string) : string := substring start len s.

(** The ASCII white-space characters [parseInt] skips
    (tab, LF, VT, FF, CR, space). *)
Definition is_ws (c : ascii) : bool :=
  let n := nat_of_ascii c in
  orb (andb (Nat.leb 9 n) (Nat.leb n 13)) (Nat.eqb n 32).

(** The value of a hexadecimal digit, either case. *)
Definition hex_val (c : ascii) : option Z :=
  let n := Z.of_nat (nat_of_ascii c) in
  if andb (Z.leb 48 n) (Z.leb n 57) then Some (n - 48)%Z
  else if andb (Z.leb 97 n) (Z.leb n 102) then Some (n - 87)%Z
  else if andb (Z.leb 65 n) (Z.leb n 70) then Some (n - 55)%Z
  else None.

Fixpoint skip_ws (s : string) : string :=
  match s with
  | String c rest => if is_ws c then skip_ws rest else s
  | EmptyString => EmptyString
  end.

(** The longest prefix of hexadecimal digits, accumulated into [acc];
    [None] when the prefix is empty. *)
Fixpoint hex_prefix (s : string) (acc : option Z) : option Z :=
  match s with
  | String c rest =>
      match hex_val c with
      | Some d => hex_prefix rest (Some (16 * match acc with Some a => a | None => 0 end + d)%Z)
      | None => acc
      end
  | EmptyString => acc
  end.

(** [parseInt(s, 16)] (ECMA-262 19.2.5): skip white space, read an
    optional sign, strip a [0x]/[0X] prefix, then read the longest prefix
    of hexadecimal digits; [None] stands for [NaN]. *)
Definition parseInt16 (s : string) : option Z :=
  let s := skip_ws s in
  let '(neg, s) :=
    match s with
    | String "-" rest => (true, rest)
    | String "+" rest => (false, rest)
    | _ => (false, s)
    end in
  let s :=
    match s with
    | String "0" (String x rest) =>
        if orb (Ascii.eqb x "x") (Ascii.eqb x "X") then rest else s
    | _ => s
    end in
  match hex_prefix s None with
  | Some v => Some (if neg then Z.opp v else v)
  | None => None
  end.

(** [n.toString(16)] on the result of [parseInt]. *)
Definition toString16 (n : option Z) : string :=
  match n with
  | None => "NaN"
  | Some z => Js.int_toString 16 z
  end.

End JsStr.

(* ------------------------------------------------------------------ *)
(** ** hexToBGR (lines 513-523) *)

Definition hexToBGR (hex : string) : string :=
  let hex := JsStr.replace_first "#" hex in
  let r := JsStr.parseInt16 (JsStr.substr 0 2 hex) in
  let g := JsStr.parseInt16 (JsStr.substr 2 2 hex) in
  let b := JsStr.parseInt16 (JsStr.substr 4 2 hex) in
  "&H" ++ Js.padStart 2 "0" (JsStr.toString16 b)
       ++ Js.padStart 2 "0" (JsStr.toString16 g)
       ++ Js.padStart 2 "0" (JsStr.toString16 r) ++ "&".

(* ------------------------------------------------------------------ *)
(** ** Records and arrays *)

Definition nl : string := String "010"%char EmptyString.
Definition dq : string := String "034"%char EmptyString.

Record SubtitleStyle := {
  fontName : string;
  fontSize : Z;          (* the callers pass integer literals *)
  fontColor : string;
  backgroundColor : string;
  borderWidth : Z;
  borderColor : string;
  marginVertical : Z
}.

Record TranslatedSegment := {
  start : Js.number;
  end_ : Js.number;      (* [end] in the source *)
  text : string
}.

Record VideoResult := {
  success : bool;
  message : string;
  outputPath : option string
}.

(** [Array.prototype.join(sep)] on an array of strings. *)
Fixpoint join (sep : string) (l : list string) : string :=
  match l with
  | [] => EmptyString
  | [x] => x
  | x :: rest => x ++ sep ++ join sep rest
  end.

(** [Array.prototype.map((x, index) => ...)], indices counted from [i]. *)
Fixpoint map_index {A B : Type} (f : A -> nat -> B) (i : nat) (l : list A) : list B :=
  match l with
  | [] => []
  | x :: rest => f x i :: map_index f (S i) rest
  end.

(* ------------------------------------------------------------------ *)
(** ** generateSRTFile, the pure part (lines 442-453) *)

Definition srt_cue (segment : TranslatedSegment) (index : nat) : string :=
  let startTime := formatSRTTime (start segment) in
  let endTime := formatSRTTime (end_ segment) in
  join nl [Js.int_toString 10 (Z.of_nat (index + 1));
           startTime ++ " --> " ++ endTime;
           text segment;
           EmptyString].

Definition srt_cues (segments : list TranslatedSegment) : list string :=
  map_index srt_cue 0 segments.

Definition srtContent (segments : list TranslatedSegment) : string :=
  join nl (srt_cues segments).

(* ------------------------------------------------------------------ *)
(** ** Node's [path] module (POSIX), on the paths the service builds *)

Module Path.

Fixpoint last_index (c : ascii) (s : string) (i : nat) (acc : option nat) : option nat :=
  match s with
  | EmptyString => acc
  | String d rest => last_index c rest (S i) (if Ascii.eqb c d then Some i else acc)
  end.

(** [path.dirname]: everything before the last '/', "." without one. *)
Definition dirname (p : string) : string :=
  match last_index "/" p 0 None with
  | None => "."
  | Some 0 => "/"
  | Some i => substring 0 i p
  end.

Definition base_of (p : string) : string :=
  match last_index "/" p 0 None with
  | None => p
  | Some i => substring (S i) (String.length p) p
  end.

(** [path.extname]: from the last '.' of the last component, unless that
    '.' starts the component. *)
Definition extname (p : string) : string :=
  let b := base_of p in
  match last_index "." b 0 None with
  | None | Some 0 => EmptyString
  | Some i => substring i (String.length b) b
  end.

(** [path.basename(p, ext)]. *)
Definition basename (p ext : string) : string :=
  let b := base_of p in
  let lb := String.length b in
  let le := String.length ext in
  if andb (Nat.ltb le lb) (String.eqb (substring (lb - le) le b) ext)
  then substring 0 (lb - le) b else b.

(** [path.join(dir, name)] for a file name without '/' (the only use). *)
Definition join (dir name : string) : string :=
  if String.eqb dir "." then name else dir ++ "/" ++ name.

End Path.

(* ------------------------------------------------------------------ *)
(** ** The environment: file system, clock, randomness, processes *)

Record FS := {
  files : string -> option string;   (* regular files and their contents *)
  dirs : string -> bool               (* existing directories *)
}.

Definition fs_write (fs : FS) (p : string) (c : option string) : FS :=
  {| files := fun q => if String.eqb q p then c else files fs q; dirs := dirs fs |}.

Definition fs_mkdir (fs : FS) (p : string) : FS :=
  {| files := files fs; dirs := fun q => orb (String.eqb q p) (dirs fs q) |}.

(** The file-system calls that can throw. *)
Inductive fs_call := Mkdir (p : string) | WriteFile (p : string) | Unlink (p : string) | Stat (p : string).

(** The outcome of [execAsync]: resolved with the two streams, or
    rejected (non-zero exit status, missing binary, ...) with a message. *)
Inductive exec_result := ExecOk (stdout stderr : string) | ExecErr (msg : string).

Record Env := {
  now_srt : Z;          (* Date.now() in generateSRTFile *)
  rand_srt : string;    (* Math.random().toString(36).substr(2, 9) there *)
  now_out : Z;          (* Date.now() in generateOutputPath *)
  rand_out : string;    (* Math.random().toString(36).substr(2, 8) there *)
  run : string -> FS -> exec_result * FS;  (* a shell command and its effect *)
  io_error : fs_call -> option string      (* the error a call throws, if any *)
}.

(** The service's async code as an error/state monad: a thrown value is
    an [Error] and is carried by its [message]. *)
Inductive outcome (A : Type) := Ret (a : A) | Throw (msg : string).
Arguments Ret {A} a.
Arguments Throw {A} msg.

Definition M (A : Type) := Env -> FS -> outcome A * FS.

Definition ret {A} (a : A) : M A := fun _ fs => (Ret a, fs).
Definition throw {A} (msg : string) : M A := fun _ fs => (Throw msg, fs).
Definition bind {A B} (m : M A) (k : A -> M B) : M B :=
  fun env fs => match m env fs with
                | (Ret a, fs1) => k a env fs1
                | (Throw e, fs1) => (Throw e, fs1)
                end.
Definition ask : M Env := fun env fs => (Ret env, fs).
(** [try { m } catch (error) { h(error.message) }] *)
Definition try_catch {A} (m : M A) (h : string -> M A) : M A :=
  fun env fs => match m env fs with
                | (Throw e, fs1) => h e env fs1
                | r => r
                end.

Notation "x <- m ;; k" := (bind m (fun x => k)) (at level 61, m at next level, right associativity).
Notation "m ;;; k" := (bind m (fun _ => k)) (at level 61, right associativity).

(** Whether something (file or directory) exists at [p]. *)
Definition exists_at (fs : FS) (p : string) : bool :=
  orb (match files fs p with Some _ => true | None => false end) (dirs fs p).

Definition existsSync (p : string) : M bool :=
  fun _ fs => (Ret (exists_at fs p), fs).

Definition mkdirSync (p : string) : M unit :=
  fun env fs => match io_error env (Mkdir p) with
                | Some e => (Throw e, fs)
                | None => (Ret tt, fs_mkdir fs p)
                end.

Definition writeFileSync (p content : string) : M unit :=
  fun env fs => match io_error env (WriteFile p) with
                | Some e => (Throw e, fs)
                | None => (Ret tt, fs_write fs p (Some content))
                end.

Definition unlinkSync (p : string) : M unit :=
  fun env fs => match io_error env (Unlink p), files fs p with
                | Some e, _ => (Throw e, fs)
                | None, None => (Throw ("ENOENT: no such file or directory, unlink '" ++ p ++ "'"), fs)
                | None, Some _ => (Ret tt, fs_write fs p None)
                end.

(** [fs.statSync(p).size] *)
Definition statSync (p : string) : M nat :=
  fun env fs => match io_error env (Stat p), files fs p with
                | Some e, _ => (Throw e, fs)
                | None, Some c => (Ret (String.length c), fs)
                | None, None => if dirs fs p then (Ret 4096%nat, fs)
                                else (Throw ("ENOENT: no such file or directory, stat '" ++ p ++ "'"), fs)
                end.

Definition execAsync (cmd : string) : M (string * string) :=
  fun env fs => match run env cmd fs with
                | (ExecOk o e, fs1) => (Ret (o, e), fs1)
                | (ExecErr m, fs1) => (Throw m, fs1)
                end.

(* ------------------------------------------------------------------ *)
(** ** generateSRTFile (lines 441-464) *)

Definition srtPathOf (env : Env) : string :=
  Path.join "temp" ("subtitles_" ++ Js.int_toString 10 (now_srt env) ++ "_" ++ rand_srt env ++ ".srt").

Definition generateSRTFile (segments : list TranslatedSegment) : M string :=
  let content := srtContent segments in
  env <- ask ;;
  let srtPath := srtPathOf env in
  let tempDir := Path.dirname srtPath in
  ex <- existsSync tempDir ;;
  (if ex then ret tt else mkdirSync tempDir) ;;;
  writeFileSync srtPath content ;;;
  ret srtPath.

(* ------------------------------------------------------------------ *)
(** ** generateOutputPath (lines 475-484) *)

Definition outputPathOf (env : Env) (inputPath : string) : string :=
  let ext := Path.extname inputPath in
  let basename := Path.basename inputPath ext in
  let dirname := Path.dirname inputPath in
  Path.join dirname (basename ++ "_subtitled_" ++ Js.int_toString 10 (now_out env)
                     ++ "_" ++ rand_out env ++ ".mp4").

Definition generateOutputPath (inputPath : string) : M string :=
  env <- ask ;; ret (outputPathOf env inputPath).

(* ------------------------------------------------------------------ *)
(** ** buildFFmpegCommand (lines 486-510) *)

Definition buildFFmpegCommand (inputPath srtPath outputPath : string) (style : SubtitleStyle) : string :=
  let escapedInputPath := dq ++ inputPath ++ dq in
  let escapedSrtPath := dq ++ srtPath ++ dq in
  let escapedOutputPath := dq ++ outputPath ++ dq in
  let fontColorBGR := hexToBGR (fontColor style) in
  let backgroundColorBGR := hexToBGR (backgroundColor style) in
  let borderColorBGR := hexToBGR (borderColor style) in
  let subtitleFilter :=
    "subtitles=" ++ escapedSrtPath ++ ":force_style='FontName=" ++ fontName style ++
    ",FontSize=" ++ Js.int_toString 10 (fontSize style) ++
    ",PrimaryColour=" ++ fontColorBGR ++
    ",BackColour=" ++ backgroundColorBGR ++
    ",BorderWidth=" ++ Js.int_toString 10 (borderWidth style) ++
    ",OutlineColour=" ++ borderColorBGR ++
    ",MarginV=" ++ Js.int_toString 10 (marginVertical style) ++ "'" in
  join " " ["ffmpeg"; "-i"; escapedInputPath; "-vf"; dq ++ subtitleFilter ++ dq;
            "-c:a"; "copy"; "-c:v"; "libx264"; "-preset"; "medium"; "-crf"; "23"; "-y";
            escapedOutputPath].

(* ------------------------------------------------------------------ *)
(** ** generateVideoWithSubtitles (lines 374-439) *)

Definition msg_not_found : string := "FFmpeg não encontrado. Instale o FFmpeg para continuar.".
Definition msg_no_output : string := "Arquivo de saída não foi criado".
Definition msg_ok : string := "Vídeo com legendas gerado com sucesso".

Definition generateVideoWithSubtitles (inputVideoPath : string)
    (segments : list TranslatedSegment) (style : SubtitleStyle) : M VideoResult :=
  try_catch (
    available <- try_catch (execAsync "ffmpeg -version" ;;; ret true) (fun _ => ret false) ;;
    if negb available then
      ret {| success := false; message := msg_not_found; outputPath := None |}
    else
      srtPath <- generateSRTFile segments ;;
      outputPath <- generateOutputPath inputVideoPath ;;
      let ffmpegCommand := buildFFmpegCommand inputVideoPath srtPath outputPath style in
      _ <- execAsync ffmpegCommand ;;
      created <- existsSync outputPath ;;
      if negb created then
        unlinkSync srtPath ;;;
        ret {| success := false; message := msg_no_output; outputPath := None |}
      else
        _ <- statSync outputPath ;;
        unlinkSync srtPath ;;;
        ret {| success := true; message := msg_ok; outputPath := Some outputPath |})
  (fun error => ret {| success := false; message := "Erro na geração: " ++ error; outputPath := None |}).

(* ------------------------------------------------------------------ *)
(** ** How /bin/sh splits a command line (for the quoting property)

    A small POSIX lexer: outside quotes ';', '&' and '|' end a command
    and a backslash escapes the next character; inside double quotes a
    backslash escapes the next character too; single quotes are literal. *)

Inductive qstate := Plain | InDouble | InSingle.

Fixpoint split_commands (st : qstate) (s : string) (cur : string) : list string :=
  match s with
  | EmptyString => [cur]
  | String c rest =>
      let n := nat_of_ascii c in
      match st with
      | Plain =>
          if orb (Nat.eqb n 59) (orb (Nat.eqb n 38) (Nat.eqb n 124)) then
            cur :: split_commands Plain rest EmptyString
          else if Nat.eqb n 92 then
            match rest with
            | String c' rest' => split_commands Plain rest' (cur ++ String c (String c' EmptyString))
            | EmptyString => [cur ++ String c EmptyString]
            end
          else split_commands (if Nat.eqb n 34 then InDouble else if Nat.eqb n 39 then InSingle else Plain)
                              rest (cur ++ String c EmptyString)
      | InDouble =>
          if Nat.eqb n 92 then
            match rest with
            | String c' rest' => split_commands InDouble rest' (cur ++ String c (String c' EmptyString))
            | EmptyString => [cur ++ String c EmptyString]
            end
          else split_commands (if Nat.eqb n 34 then Plain else InDouble) rest (cur ++ String c EmptyString)
      | InSingle =>
          split_commands (if Nat.eqb n 39 then Plain else InSingle) rest (cur ++ String c EmptyString)
      end
  end.

(** The commands the shell runs for a command line. *)
Definition shell_commands (cmd : string) : list string := split_commands Plain cmd EmptyString.

(** The cue the spec describes for the [k]-th segment: index line, time
    range line, the text, each ended by a line break. *)
Definition cue_block (k : nat) (segment : TranslatedSegment) : string :=
  Js.int_toString 10 (Z.of_nat k) ++ nl ++
  (formatSRTTime (start segment) ++ " --> " ++ formatSRTTime (end_ segment)) ++ nl ++
  text segment ++ nl.

(** The cues numbered from [k], each followed by a blank line. *)
Fixpoint srt_blocks (k : nat) (segments : list TranslatedSegment) : string :=
  match segments with
  | [] => EmptyString
  | segment :: rest => cue_block k segment ++ nl ++ srt_blocks (S k) rest
  end.

(** Lower-casing of an ASCII letter (the hex digits [toString(16)] prints). *)
Definition lower (c : ascii) : ascii :=
  let n := nat_of_ascii c in
  if andb (Nat.leb 65 n) (Nat.leb n 90) then ascii_of_nat (n + 32) else c.

Definition is_hex (c : ascii) : bool :=
  match JsStr.hex_val c with Some _ => true | None => false end.

Definition hex_chars : list ascii :=
  ["0";"1";"2";"3";"4";"5";"6";"7";"8";"9";
   "a";"b";"c";"d";"e";"f";"A";"B";"C";"D";"E";"F"]%char.

(* ------------------------------------------------------------------ *)
(** ** Auxiliary definitions and concrete runs used by the properties *)

Definition pair_ok (c1 c2 : ascii) : bool :=
  String.eqb (Js.padStart 2 "0" (JsStr.toString16 (JsStr.parseInt16 (String c1 (String c2 EmptyString)))))
             (String (lower c1) (String (lower c2) EmptyString)).

(** A concrete run: clock, random suffixes, and a shell in which
    [ffmpeg -version] succeeds and every other command fails. *)
Definition env_render_fails : Env := {|
  now_srt := 1700000000000; rand_srt := "k3j9x0a1b";
  now_out := 1700000000001; rand_out := "q8w7e6r5";
  run := fun cmd fs =>
    if String.eqb cmd "ffmpeg -version" then (ExecOk "ffmpeg version 6.0" EmptyString, fs)
    else (ExecErr "Command failed: ffmpeg (exit code 1)", fs);
  io_error := fun _ => None |}.

Definition env_other : Env := {|
  now_srt := 1700000055555; rand_srt := "zz0011aab";
  now_out := 1700000055556; rand_out := "p0o9i8u7";
  run := fun _ fs => (ExecOk EmptyString EmptyString, fs);
  io_error := fun _ => None |}.

Definition fs_empty : FS := {| files := fun _ => None; dirs := fun _ => false |}.

(** An inverted segment: it ends before it starts. *)
Definition segs_inverted : list TranslatedSegment :=
  [ {| start := Js.of_Z 5; end_ := Js.of_Z 2; text := "x" |} ].

Definition style_default : SubtitleStyle := {|
  fontName := "Arial"; fontSize := 20; fontColor := "#ffffff";
  backgroundColor := "#000000cc"; borderWidth := 1; borderColor := "#000000";
  marginVertical := 50 |}.

Definition segs_hello : list TranslatedSegment :=
  [ {| start := Js.of_Z 0; end_ := Js.lit 25 1; text := "Hello" |} ].

Definition env_no_ffmpeg : Env := {|
  now_srt := 1700000000000; rand_srt := "k3j9x0a1b";
  now_out := 1700000000001; rand_out := "q8w7e6r5";
  run := fun _ fs => (ExecErr "Command failed: ffmpeg -version (/bin/sh: 1: ffmpeg: not found)", fs);
  io_error := fun _ => None |}.

(** Return values of a computation that satisfy [P] whenever it returns. *)
Definition ret_ok {A : Type} (P : A -> Prop) (m : M A) : Prop :=
  forall env fs, match fst (m env fs) with Ret a => P a | Throw _ => True end.

Definition result_shape (v : VideoResult) : Prop :=
  success v = true <-> outputPath v <> None.

Definition srt_hello : string := "temp/subtitles_1700000000000_k3j9x0a1b.srt".
Definition out_abc : string := "temp/abc_subtitled_1700000000001_q8w7e6r5.mp4".


(** A video path holding double quotes and a command separator. *)
Definition path_with_quotes : string :=
  "uploads/clip" ++ dq ++ "; touch pwned; " ++ dq ++ ".mp4".

(* ------------------------------------------------------------------ *)
(** ** TranslationService (lines 16-340) *)

Module Translation.

Record TranslationSegment := {
  start : Js.number;
  end_ : Js.number;                  (* [end] in the source *)
  originalText : string;
  translatedText : option string     (* the optional field; [None] when absent *)
}.

Record TranslationResult := {
  success : bool;
  message : string;
  segments : option (list TranslationSegment)
}.

(** *** transcribeAudio (lines 22-95); [sourceLanguage] is only logged *)

Definition mockTexts : list string := [
  "Hello, this is a sample transcription from the audio";
  "This is the second part of the audio content";
  "Here we continue with more audio transcription";
  "This segment contains more spoken content";
  "The audio continues with additional information";
  "This is another part of the transcribed audio";
  "More content is being transcribed from the audio";
  "The transcription continues with this segment";
  "Additional audio content is transcribed here";
  "This is the final part of the audio transcription"].

Definition fallbackSegments : list TranslationSegment := [
  {| start := Js.of_Z 0; end_ := Js.of_Z 3;
     originalText := "Sample transcription from uploaded audio"; translatedText := None |};
  {| start := Js.of_Z 3; end_ := Js.of_Z 6;
     originalText := "This is the second part of the audio"; translatedText := None |};
  {| start := Js.of_Z 6; end_ := Js.of_Z 9;
     originalText := "Final segment of the transcribed content"; translatedText := None |}].

(** [Math.max(9, Math.min(60, Math.round(stats.size / 1024 / 256)))].
    Both divisions are by powers of two and exact for every size below
    2^53, and [Math.round] rounds halves up, so the rounded quotient is
    [(size + 131072) div 262144]. *)
Definition estimatedDuration (size : nat) : Z :=
  Z.max 9 (Z.min 60 ((Z.of_nat size + 131072) / 262144))%Z.

Definition segmentDuration : Z := 3.

(** [Math.ceil(estimatedDuration / segmentDuration)]: on the integers
    9..60 the quotient rounds to a double strictly between the same two
    integers, so its ceiling is the integer ceiling. *)
Definition numSegments (estimatedDuration : Z) : nat :=
  Z.to_nat ((estimatedDuration + segmentDuration - 1) / segmentDuration)%Z.

(** The [i]-th pushed segment; [i * 3] and [Math.min((i + 1) * 3, d)] are
    small integers, computed exactly by the doubles. *)
Definition mockSegment (estimatedDuration : Z) (i : nat) : TranslationSegment :=
  let s := (Z.of_nat i * segmentDuration)%Z in
  let e := Z.min ((Z.of_nat i + 1) * segmentDuration)%Z estimatedDuration in
  let t := nth (i mod length mockTexts) mockTexts EmptyString in
  {| start := Js.of_Z s;
     end_ := Js.of_Z e;
     originalText := if String.eqb t "" then
                       "Audio segment " ++ Js.int_toString 10 (Z.of_nat i + 1)%Z ++ " transcribed content"
                     else t;
     translatedText := None |}.

Definition mockSegments (estimatedDuration : Z) : list TranslationSegment :=
  map (mockSegment estimatedDuration) (seq 0 (numSegments estimatedDuration)).

Definition transcribeAudio (audioPath : string) : M (list TranslationSegment) :=
  try_catch (
    ex <- existsSync audioPath ;;
    if negb ex then throw ("Arquivo de áudio não encontrado: " ++ audioPath)
    else
      size <- statSync audioPath ;;
      ret (mockSegments (estimatedDuration size)))
  (fun _ => ret fallbackSegments).

(** *** translateWithDictionary (lines 204-289) *)

(** The length in bytes of the white-space character of [\s] (the
    ECMAScript WhiteSpace and LineTerminator code points) at the head of a
    UTF-8 string; 0 when it starts with none. *)
Definition ws_len (s : string) : nat :=
  match s with
  | EmptyString => 0
  | String c rest =>
      let n := nat_of_ascii c in
      if orb (andb (Nat.leb 9 n) (Nat.leb n 13)) (Nat.eqb n 32) then 1
      else match rest with
           | EmptyString => 0
           | String c2 rest2 =>
               let n2 := nat_of_ascii c2 in
               if andb (Nat.eqb n 194) (Nat.eqb n2 160) then 2            (* U+00A0 *)
               else match rest2 with
                    | EmptyString => 0
                    | String c3 _ =>
                        let n3 := nat_of_ascii c3 in
                        if orb (andb (Nat.eqb n 225) (andb (Nat.eqb n2 154) (Nat.eqb n3 128)))
                                                                          (* U+1680 *)
                           (orb (andb (Nat.eqb n 226) (andb (Nat.eqb n2 128)
                                  (orb (andb (Nat.leb 128 n3) (Nat.leb n3 138))
                                                                          (* U+2000..U+200A *)
                                  (orb (Nat.eqb n3 168) (orb (Nat.eqb n3 169) (Nat.eqb n3 175))))))
                                                                          (* U+2028 U+2029 U+202F *)
                           (orb (andb (Nat.eqb n 226) (andb (Nat.eqb n2 129) (Nat.eqb n3 159)))
                                                                          (* U+205F *)
                           (orb (andb (Nat.eqb n 227) (andb (Nat.eqb n2 128) (Nat.eqb n3 128)))
                                                                          (* U+3000 *)
                                (andb (Nat.eqb n 239) (andb (Nat.eqb n2 187) (Nat.eqb n3 191))))))
                                                                          (* U+FEFF *)
                        then 3 else 0
                    end
           end
  end.

(** Drop the white-space run at the head of [s]. *)
Fixpoint skip_ws_run (fuel : nat) (s : string) : string :=
  match fuel with
  | O => s
  | S f => match ws_len s with
           | O => s
           | k => skip_ws_run f (substring k (String.length s - k) s)
           end
  end.

(** [s.split(/\s+/)]: the pieces between maximal white-space runs, with
    an empty piece before a leading run and after a trailing one; [fuel]
    bounds the bytes read. *)
Fixpoint split_ws_aux (fuel : nat) (s cur : string) : list string :=
  match fuel with
  | O => [cur ++ s]
  | S f =>
      match s with
      | EmptyString => [cur]
      | String c rest =>
          match ws_len s with
          | O => split_ws_aux f rest (cur ++ String c EmptyString)
          | k => cur :: split_ws_aux f (skip_ws_run (String.length s)
                                          (substring k (String.length s - k) s)) EmptyString
          end
      end
  end.

Definition split_ws (s : string) : list string := split_ws_aux (String.length s) s EmptyString.

(** A character of [\w]: [A-Za-z0-9_]. *)
Definition is_word_char (c : ascii) : bool :=
  let n := nat_of_ascii c in
  orb (andb (Nat.leb 48 n) (Nat.leb n 57))
      (orb (andb (Nat.leb 65 n) (Nat.leb n 90))
           (orb (andb (Nat.leb 97 n) (Nat.leb n 122)) (Nat.eqb n 95))).

(** [word.replace(/[^\w]/g, '')]; every byte of a multi-byte UTF-8
    character is outside [\w], as the character is. *)
Fixpoint remove_non_word (s : string) : string :=
  match s with
  | EmptyString => EmptyString
  | String c rest => if is_word_char c then String c (remove_non_word rest) else remove_non_word rest
  end.

Definition dict_pt : list (string * string) := [
  ("hello", "olá"); ("this", "este"); ("is", "é"); ("a", "um");
  ("sample", "exemplo"); ("transcription", "transcrição"); ("second", "segunda");
  ("part", "parte"); ("audio", "áudio"); ("final", "final"); ("segment", "segmento");
  ("thank", "obrigado"); ("you", "você"); ("for", "por"); ("listening", "ouvir");
  ("and", "e"); ("of", "de"); ("the", "o")].

Definition dict_es : list (string * string) := [
  ("hello", "hola"); ("this", "este"); ("is", "es"); ("a", "un");
  ("sample", "ejemplo"); ("transcription", "transcripción"); ("second", "segunda");
  ("part", "parte"); ("audio", "audio"); ("final", "final"); ("segment", "segmento");
  ("thank", "gracias"); ("you", "tú"); ("for", "por"); ("listening", "escuchar");
  ("and", "y"); ("of", "de"); ("the", "el")].

Definition dict_fr : list (string * string) := [
  ("hello", "bonjour"); ("this", "ce"); ("is", "est"); ("a", "un");
  ("sample", "exemple"); ("transcription", "transcription"); ("second", "deuxième");
  ("part", "partie"); ("audio", "audio"); ("final", "final"); ("segment", "segment");
  ("thank", "merci"); ("you", "vous"); ("for", "pour"); ("listening", "écouter");
  ("and", "et"); ("of", "de"); ("the", "le")].

(** [translations[targetLanguage]] for the object's own keys. *)
Definition translations (targetLanguage : string) : option (list (string * string)) :=
  if String.eqb targetLanguage "pt" then Some dict_pt
  else if String.eqb targetLanguage "es" then Some dict_es
  else if String.eqb targetLanguage "fr" then Some dict_fr
  else None.

(** The methods every object literal inherits from [Object.prototype],
    besides [constructor] and the [__proto__] accessor. *)
Definition object_prototype_methods : list string :=
  ["__defineGetter__"; "__defineSetter__"; "hasOwnProperty"; "__lookupGetter__";
   "__lookupSetter__"; "isPrototypeOf"; "propertyIsEnumerable"; "toString";
   "valueOf"; "toLocaleString"].

Definition is_prototype_key (key : string) : bool :=
  orb (String.eqb key "constructor")
      (orb (String.eqb key "__proto__") (existsb (String.eqb key) object_prototype_methods)).

(** A property value read from a dictionary: a string, or an object
    (always truthy) with the string [join] makes of it. *)
Inductive jsval := JsString (s : string) | JsObject (shown : string).

(** [dictionary[key]] on one of the three dictionaries: the own entry, else
    what the prototype provides (the [Object] constructor, the prototype
    object itself, a built-in method), else [undefined] ([None]). *)
Definition dict_get (dictionary : list (string * string)) (key : string) : option jsval :=
  match find (fun kv => String.eqb (fst kv) key) dictionary with
  | Some (_, v) => Some (JsString v)
  | None =>
      if String.eqb key "constructor" then Some (JsObject "function Object() { [native code] }")
      else if String.eqb key "__proto__" then Some (JsObject "[object Object]")
      else if existsb (String.eqb key) object_prototype_methods
      then Some (JsObject ("function " ++ key ++ "() { [native code] }"))
      else None
  end.

(** [dictionary[cleanWord] || word], as [join] prints it. *)
Definition or_word (v : option jsval) (word : string) : string :=
  match v with
  | Some (JsString s) => if String.eqb s "" then word else s
  | Some (JsObject shown) => shown
  | None => word
  end.

Section Translate.

(** [String.prototype.toLowerCase] (the Unicode default case mapping,
    whose tables are not embedded here). *)
Variable toLowerCase : string -> string.

(** [translateWithDictionary(text, targetLanguage)].  [None]: the target
    language names an [Object.prototype] property, so [translations]
    yields a built-in object whose properties are not embedded. *)
Definition translateWithDictionary (text targetLanguage : string) : option string :=
  if is_prototype_key targetLanguage then None
  else
    match translations targetLanguage with
    | None => Some text
    | Some dictionary =>
        let words := split_ws (toLowerCase text) in
        let translatedWords :=
          map (fun word => let cleanWord := remove_non_word word in
                           or_word (dict_get dictionary cleanWord) word) words in
        Some (join " " translatedWords)
    end.

(** The translation service answering a request [(sl, tl, q)] with the
    value at [response.data[0][0][0]]: a string, or [None] when the request
    fails, times out, or the response lacks it. *)
Variable google : string -> string -> string -> option string.

(** [translateWithGoogle] (lines 165-199): every error is caught into [null]. *)
Definition translateWithGoogle (text sourceLanguage targetLanguage : string) : option string :=
  google (if String.eqb sourceLanguage "auto" then "en" else sourceLanguage) targetLanguage text.

(** [translateText] (lines 138-160): a truthy answer of the service, else
    the dictionary. *)
Definition translateText (text sourceLanguage targetLanguage : string) : option string :=
  match translateWithGoogle text sourceLanguage targetLanguage with
  | Some translation =>
      if String.eqb translation "" then translateWithDictionary text targetLanguage
      else Some translation
  | None => translateWithDictionary text targetLanguage
  end.

(** The [for ... of] loop of [translateSegments]: [{...segment, translatedText}]. *)
Fixpoint translate_all (segments : list TranslationSegment) (sourceLanguage targetLanguage : string)
    : option (list TranslationSegment) :=
  match segments with
  | [] => Some []
  | segment :: rest =>
      match translateText (originalText segment) sourceLanguage targetLanguage,
            translate_all rest sourceLanguage targetLanguage with
      | Some translatedText, Some translated =>
          Some ({| start := start segment; end_ := end_ segment;
                   originalText := originalText segment;
                   translatedText := Some translatedText |} :: translated)
      | _, _ => None
      end
  end.

(** [translateSegments] (lines 101-133): nothing in the loop throws, so
    the catch branch is never taken. *)
Definition translateSegments (segments : list TranslationSegment)
    (targetLanguage sourceLanguage : string) : option TranslationResult :=
  match translate_all segments sourceLanguage targetLanguage with
  | Some translatedSegments =>
      Some {| success := true; message := "Tradução concluída para " ++ targetLanguage;
              segments := Some translatedSegments |}
  | None => None
  end.

End Translate.

(** *** detectLanguage (lines 328-339), on the UTF-16 code units of the
    text.  Without the [u] flag, [/[...]/i] matches a code unit whose
    upper-case form is that of a listed letter: the letter or its
    upper-case form (for [ÿ], U+0178). *)

Definition portuguese : list Z :=
  (* à á â ã ç é ê í ó ô õ ú, then À Á Â Ã Ç É Ê Í Ó Ô Õ Ú *)
  [0xE0; 0xE1; 0xE2; 0xE3; 0xE7; 0xE9; 0xEA; 0xED; 0xF3; 0xF4; 0xF5; 0xFA;
   0xC0; 0xC1; 0xC2; 0xC3; 0xC7; 0xC9; 0xCA; 0xCD; 0xD3; 0xD4; 0xD5; 0xDA]%Z.

Definition spanish : list Z :=
  (* ñ á é í ó ú ü, then Ñ Á É Í Ó Ú Ü *)
  [0xF1; 0xE1; 0xE9; 0xED; 0xF3; 0xFA; 0xFC;
   0xD1; 0xC1; 0xC9; 0xCD; 0xD3; 0xDA; 0xDC]%Z.

Definition french : list Z :=
  (* à â ä é è ê ë ï î ô ù û ü ÿ ç, then À Â Ä É È Ê Ë Ï Î Ô Ù Û Ü Ÿ Ç *)
  [0xE0; 0xE2; 0xE4; 0xE9; 0xE8; 0xEA; 0xEB; 0xEF; 0xEE; 0xF4; 0xF9; 0xFB; 0xFC; 0xFF; 0xE7;
   0xC0; 0xC2; 0xC4; 0xC9; 0xC8; 0xCA; 0xCB; 0xCF; 0xCE; 0xD4; 0xD9; 0xDB; 0xDC; 0x178; 0xC7]%Z.

(** [re.test(text)] for a one-class pattern. *)
Definition class_test (cls : list Z) (text : list Z) : bool :=
  existsb (fun u => existsb (Z.eqb u) cls) text.

Definition detectLanguage (text : list Z) : string :=
  if class_test portuguese text then "pt"
  else if class_test spanish text then "es"
  else if class_test french text then "fr"
  else "en".

(** *** extractAudioFromVideo (lines 294-323) *)

(** [path.join(dirName, `${baseName}_audio.wav`)]; [path.extname(...) || '']
    is the extension itself, the empty string included. *)
Definition audioPathOf (videoPath : string) : string :=
  let baseName := Path.basename videoPath (Path.extname videoPath) in
  let dirName := Path.dirname videoPath in
  Path.join dirName (baseName ++ "_audio.wav").

Definition extractCommand (videoPath audioPath : string) : string :=
  "ffmpeg -i " ++ dq ++ videoPath ++ dq ++
  " -vn -acodec pcm_s16le -ac 1 -ar 16000 -f wav -y " ++ dq ++ audioPath ++ dq.

Definition extractAudioFromVideo (videoPath : string) : M string :=
  let audioPath := audioPathOf videoPath in
  try_catch (
    _ <- execAsync (extractCommand videoPath audioPath) ;;
    ret audioPath)
  (fun m => throw ("Falha na extração de áudio: " ++ m)).

End Translation.

(* ------------------------------------------------------------------ *)
(** ** WhisperService (lines 562-857): the parts without floating point *)

Module Whisper.

Record TranscriptionContext := {
  prompt : option string;
  vocabulary : option (list string);
  topic : option string;
  speaker : option string;
  language : option string
}.

(** A string field read in a condition: [Some s] when present and non-empty. *)
Definition truthy (o : option string) : option string :=
  match o with
  | Some s => if String.eqb s "" then None else Some s
  | None => None
  end.

Definition genericTexts : list string := [
  "Este é um exemplo de conteúdo transcrito do vídeo.";
  "A qualidade da transcrição depende da clareza do áudio.";
  "O sistema está processando o áudio e gerando as legendas.";
  "Cada segmento corresponde a um período de tempo específico.";
  "A transcrição automática facilita a acessibilidade do conteúdo.";
  "Tecnologias de reconhecimento de voz estão em constante evolução.";
  "É importante revisar as transcrições para garantir precisão.";
  "O processamento de áudio pode incluir remoção de ruídos.";
  "Legendas auxiliam pessoas com deficiência auditiva.";
  "A sincronização entre áudio e texto é fundamental."].

(** The texts pushed from the context, in order. *)
Definition context_texts (context : option TranscriptionContext) : list string :=
  match context with
  | None => []
  | Some c =>
      match truthy (topic c) with
      | Some t => ["Vamos falar sobre " ++ t ++ " neste vídeo.";
                   "O tema " ++ t ++ " é muito importante para entendermos.";
                   "Continuando nossa discussão sobre " ++ t ++ "."]
      | None => []
      end ++
      match truthy (speaker c) with
      | Some s => [s ++ " está apresentando este conteúdo.";
                   "Como " ++ s ++ " mencionou anteriormente."]
      | None => []
      end ++
      match truthy (prompt c) with
      | Some p => [p ++ " - vamos explorar este assunto."]
      | None => []
      end
  end.

(** [while (texts.length < numSegments) texts.push(genericTexts[texts.length % 10])];
    [fuel] bounds the iterations. *)
Fixpoint fill (fuel : nat) (numSegments : nat) (texts : list string) : list string :=
  match fuel with
  | O => texts
  | S f =>
      if Nat.ltb (length texts) numSegments
      then fill f numSegments (texts ++ [nth (length texts mod length genericTexts) genericTexts EmptyString])
      else texts
  end.

(** [generateContextualTexts(context, numSegments)] (lines 732-773); the
    callers pass a non-negative integer. *)
Definition generateContextualTexts (context : option TranscriptionContext) (numSegments : nat) : list string :=
  firstn numSegments (fill numSegments numSegments (context_texts context)).

(** [String.prototype.includes]. *)
Fixpoint includes (s sub : string) : bool :=
  orb (String.prefix sub s)
      (match s with EmptyString => false | String _ rest => includes rest sub end).

(** [cleanupAudioFile] (lines 830-839). *)
Definition cleanupAudioFile (audioPath : string) : M unit :=
  try_catch (
    ex <- existsSync audioPath ;;
    if andb ex (includes audioPath "_audio.wav") then unlinkSync audioPath else ret tt)
  (fun _ => ret tt).

End Whisper.

(* ------------------------------------------------------------------ *)
(** ** TranscriptionController (src/src/controllers/transcription.controller.ts) *)

Module Controller.

(** [translationResult.segments!.map(seg => ({start, end, text: seg.translatedText || seg.originalText}))]
    (lines 69-73). *)
Definition to_translated (seg : Translation.TranslationSegment) : TranslatedSegment :=
  {| start := Translation.start seg;
     end_ := Translation.end_ seg;
     text := match Translation.translatedText seg with
             | Some t => if String.eqb t "" then Translation.originalText seg else t
             | None => Translation.originalText seg
             end |}.

(** [[^/.]+$]: one or more characters, none of them '/' or '.', up to the end. *)
Fixpoint ext_tail (s : string) : bool :=
  match s with
  | EmptyString => false
  | String c rest =>
      andb (negb (orb (Ascii.eqb c "/") (Ascii.eqb c ".")))
           (match rest with EmptyString => true | _ => ext_tail rest end)
  end.

(** [s.replace(/\.[^/.]+$/, rep)]: the leftmost match, if any, is replaced. *)
Fixpoint replace_ext (s rep : string) : string :=
  match s with
  | EmptyString => EmptyString
  | String c rest => if andb (Ascii.eqb c ".") (ext_tail rest) then rep else String c (replace_ext rest rep)
  end.

Definition possibleAudioPath (filePath : string) : string := replace_ext filePath "_audio.wav".

(** The file clean-up of the catch branch of [transcribeAndGenerateVideo]
    (lines 136-150), given [req.file?.path]; the JSON response is not
    modelled. *)
Definition cleanup_after_error (filePath : option string) : M unit :=
  (match filePath with
   | Some p => ex <- existsSync p ;; if ex then unlinkSync p else ret tt
   | None => ret tt
   end) ;;;
  try_catch (
    match filePath with
    | Some p =>
        let possible := possibleAudioPath p in
        if String.eqb possible "" then ret tt
        else ex <- existsSync possible ;; if ex then unlinkSync possible else ret tt
    | None => ret tt
    end)
  (fun _ => ret tt).

End Controller.

(* ------------------------------------------------------------------ *)
(** ** Character tests used by the properties *)

Fixpoint str_forall (f : ascii -> bool) (s : string) : bool :=
  match s with
  | EmptyString => true
  | String c rest => andb (f c) (str_forall f rest)
  end.

(** [s] does not contain the character [c]. *)
Definition nochar (c : ascii) (s : string) : bool := str_forall (fun x => negb (Ascii.eqb c x)) s.

(** A character that /bin/sh takes literally between double quotes: not a
    double quote, a backslash, a dollar sign or a backquote. *)
Definition dq_literal (c : ascii) : bool :=
  let n := nat_of_ascii c in
  negb (orb (Nat.eqb n 34) (orb (Nat.eqb n 92) (orb (Nat.eqb n 36) (Nat.eqb n 96)))).

(** A character that /bin/sh takes literally outside quotes as far as
    command boundaries and quoting go: none of semicolon, ampersand, bar,
    backslash, the two quotes, dollar sign and backquote. *)
Definition plain_literal (c : ascii) : bool :=
  let n := nat_of_ascii c in
  andb (dq_literal c)
       (negb (orb (Nat.eqb n 59) (orb (Nat.eqb n 38) (orb (Nat.eqb n 124) (Nat.eqb n 39))))).

(* ------------------------------------------------------------------ *)
(** ** Concrete inputs and frame conditions for the other services *)

(** A translation service that is never reachable. *)
Definition google_down (sourceLanguage targetLanguage text : string) : option string := None.

Definition untranslated_result : Translation.TranslationResult :=
  match Translation.translateSegments (fun s => s) google_down Translation.fallbackSegments "de" "auto" with
  | Some r => r
  | None => {| Translation.success := false; Translation.message := ""; Translation.segments := None |}
  end.

(** [m] leaves the file at [q] as it is. *)
Definition keeps {A : Type} (q : string) (m : M A) : Prop :=
  forall env fs, files (snd (m env fs)) q = files fs q.

(** A run in which ffmpeg is installed and every file write is refused. *)
Definition env_readonly : Env := {|
  now_srt := 1700000000000; rand_srt := "k3j9x0a1b";
  now_out := 1700000000001; rand_out := "q8w7e6r5";
  run := fun cmd fs =>
    if String.eqb cmd "ffmpeg -version" then (ExecOk "ffmpeg version 6.0" EmptyString, fs)
    else (ExecOk EmptyString EmptyString, fs);
  io_error := fun c => match c with
                       | WriteFile _ => Some "EACCES: permission denied, open 'temp/subtitles_1700000000000_k3j9x0a1b.srt'"
                       | _ => None
                       end |}.

(** The upload directory after a failed request: the upload (named by the
    upload middleware, without extension) and the audio extracted from it. *)
Definition fs_upload : FS := {|
  files := fun q => if String.eqb q "temp/3f2a9c0d" then Some "video"
                    else if String.eqb q "temp/3f2a9c0d_audio.wav" then Some "RIFF"
                    else None;
  dirs := fun q => String.eqb q "temp" |}.

(* ==================================================================== *)
(** * Properties *)

(** ** Time formatting *)

(** ** Field ranges of [formatSRTTime]

    The four fields are computed with IEEE-754 division, remainder and
    multiplication; the lemmas below bound them for every non-negative
    finite double. *)

Section FloatFacts.
Local Open Scope Z_scope.















Lemma int_toString_0 : Js.int_toString 10 0 = "0"%string.
Proof. reflexivity. Qed.







Lemma pow2_split (a b : Z) : 0 <= a -> 0 <= b -> 2 ^ (a + b) = 2 ^ a * 2 ^ b.
Proof. intros; apply Z.pow_add_r; lia. Qed.






















End FloatFacts.



(** ** Colour conversion *)

Lemma hex_in_hex_chars (c : ascii) : is_hex c = true -> In c hex_chars.
Proof.
  destruct c as [[] [] [] [] [] [] [] []]; vm_compute; intro H;
    first [discriminate H | tauto].
Qed.

Lemma hex_not_hash (c : ascii) : is_hex c = true -> Ascii.eqb "#" c = false.
Proof.
  intro H. apply hex_in_hex_chars in H.
  repeat (destruct H as [<- | H]; [reflexivity |]). destruct H.
Qed.

Lemma pair_ok_all :
  forallb (fun c1 => forallb (fun c2 => pair_ok c1 c2) hex_chars) hex_chars = true.
Proof. vm_compute. reflexivity. Qed.

Lemma hex_pair (c1 c2 : ascii) :
  is_hex c1 = true -> is_hex c2 = true ->
  Js.padStart 2 "0" (JsStr.toString16 (JsStr.parseInt16 (String c1 (String c2 EmptyString)))) =
  String (lower c1) (String (lower c2) EmptyString).
Proof.
  intros H1 H2.
  apply hex_in_hex_chars in H1, H2.
  pose proof pair_ok_all as Hall.
  rewrite forallb_forall in Hall. specialize (Hall c1 H1).
  rewrite forallb_forall in Hall. specialize (Hall c2 H2).
  apply String.eqb_eq in Hall. exact Hall.
Qed.

Lemma replace_first_hex6 (r1 r2 g1 g2 b1 b2 : ascii) (rest : string) :
  is_hex r1 = true -> is_hex r2 = true -> is_hex g1 = true ->
  is_hex g2 = true -> is_hex b1 = true -> is_hex b2 = true ->
  exists rest',
    JsStr.replace_first "#"
      (String r1 (String r2 (String g1 (String g2 (String b1 (String b2 rest)))))) =
    String r1 (String r2 (String g1 (String g2 (String b1 (String b2 rest'))))).
Proof.
  intros. exists (JsStr.replace_first "#" rest). cbn [JsStr.replace_first].
  repeat match goal with H : is_hex _ = true |- _ => rewrite (hex_not_hash _ H); clear H end.
  reflexivity.
Qed.

(** C4: whatever follows the first six hexadecimal digits RRGGBB after an
    optional '#' (for instance alpha digits), the colour is printed as
    &HBBGGRR&: the three channel bytes in reverse order, two lower-case hex
    digits each, i.e. the input digits up to case. *)
Theorem hexToBGR_permutes (hash : bool) (r1 r2 g1 g2 b1 b2 : ascii) (rest : string) :
  is_hex r1 = true -> is_hex r2 = true -> is_hex g1 = true ->
  is_hex g2 = true -> is_hex b1 = true -> is_hex b2 = true ->
  hexToBGR ((if hash then "#" else "") ++
            String r1 (String r2 (String g1 (String g2 (String b1 (String b2 rest)))))) =
  "&H" ++ Js.string_of_chars (map lower [b1; b2; g1; g2; r1; r2]) ++ "&".
Proof.
  intros Hr1 Hr2 Hg1 Hg2 Hb1 Hb2.
  assert (Hrep : exists rest',
    JsStr.replace_first "#" ((if hash then "#" else "") ++
      String r1 (String r2 (String g1 (String g2 (String b1 (String b2 rest)))))) =
    String r1 (String r2 (String g1 (String g2 (String b1 (String b2 rest')))))).
  { destruct hash; simpl.
    - exists rest. reflexivity.
    - apply replace_first_hex6; assumption. }
  destruct Hrep as [rest' Hrep].
  unfold hexToBGR. rewrite Hrep.
  set (w := String r1 (String r2 (String g1 (String g2 (String b1 (String b2 rest')))))).
  assert (Hr : JsStr.substr 0 2 w = String r1 (String r2 EmptyString))
    by (subst w; destruct rest'; reflexivity).
  assert (Hg : JsStr.substr 2 2 w = String g1 (String g2 EmptyString))
    by (subst w; destruct rest'; reflexivity).
  assert (Hb : JsStr.substr 4 2 w = String b1 (String b2 EmptyString))
    by (subst w; destruct rest'; reflexivity).
  rewrite Hr, Hg, Hb.
  rewrite (hex_pair b1 b2), (hex_pair g1 g2), (hex_pair r1 r2) by assumption.
  reflexivity.
Qed.

(** Instance of C4 on the spec's example [#112233] and on a colour with an
    alpha byte. *)
Lemma hexToBGR_permutes_witness :
  hexToBGR "#112233" = "&H332211&" /\ hexToBGR "#000000cc" = "&H000000&".
Proof.
  split.
  - exact (hexToBGR_permutes true "1" "1" "2" "2" "3" "3" "" eq_refl eq_refl eq_refl eq_refl eq_refl eq_refl).
  - exact (hexToBGR_permutes true "0" "0" "0" "0" "0" "0" "cc" eq_refl eq_refl eq_refl eq_refl eq_refl eq_refl).
Defined.

(** ** The subtitle file *)

Lemma str_app_assoc (a b c : string) : (a ++ b) ++ c = a ++ (b ++ c).
Proof. induction a as [| x a IH]; simpl; [reflexivity | now rewrite IH]. Qed.

Lemma str_app_nil_r (a : string) : a ++ EmptyString = a.
Proof. induction a as [| x a IH]; simpl; [reflexivity | now rewrite IH]. Qed.

Lemma srt_cue_block (segment : TranslatedSegment) (index : nat) :
  srt_cue segment index = cue_block (S index) segment.
Proof.
  unfold srt_cue, cue_block. cbn [join]. rewrite Nat.add_1_r.
  rewrite !str_app_assoc, str_app_nil_r. reflexivity.
Qed.

Lemma map_index_length {A B : Type} (f : A -> nat -> B) (i : nat) (l : list A) :
  length (map_index f i l) = length l.
Proof. revert i; induction l as [| x l IH]; intro i; simpl; [reflexivity | now rewrite IH]. Qed.

Lemma map_index_nth {A B : Type} (f : A -> nat -> B) (i : nat) (l : list A) (n : nat) (x : A) :
  nth_error l n = Some x -> nth_error (map_index f i l) n = Some (f x (i + n)).
Proof.
  revert i n; induction l as [| y l IH]; intros i n H; destruct n as [| n]; simpl in *.
  - discriminate.
  - discriminate.
  - inversion H; subst. now rewrite Nat.add_0_r.
  - rewrite (IH (S i) n H). now rewrite Nat.add_succ_r.
Qed.

Lemma srt_join_blocks (k : nat) (segments : list TranslatedSegment) :
  segments <> [] ->
  join nl (map_index srt_cue k segments) ++ nl = srt_blocks (S k) segments.
Proof.
  revert k; induction segments as [| s rest IH]; intros k Hne; [congruence |].
  destruct rest as [| s' rest'].
  - cbn [map_index join srt_blocks]. rewrite srt_cue_block, str_app_nil_r. reflexivity.
  - change (map_index srt_cue k (s :: s' :: rest'))
      with (srt_cue s k :: map_index srt_cue (S k) (s' :: rest')).
    change (srt_blocks (S k) (s :: s' :: rest'))
      with (cue_block (S k) s ++ nl ++ srt_blocks (S (S k)) (s' :: rest')).
    rewrite <- IH by discriminate.
    cbn [map_index join]. rewrite srt_cue_block, !str_app_assoc. reflexivity.
Qed.

(** C5 (as corrected): for a non-empty sequence of N segments the builder
    makes N cues, in input order, the i-th numbered i+1 and made of its index
    line, the time range line of the segment's start and end, the text
    verbatim and a line break; consecutive cues are separated by one blank
    line, and the file ends right after the last cue (appending one line
    break gives every cue its blank line). *)
Theorem srtContent_numbered_cues (segments : list TranslatedSegment) :
  segments <> [] ->
  length (srt_cues segments) = length segments /\
  (forall (i : nat) (segment : TranslatedSegment),
     nth_error segments i = Some segment ->
     nth_error (srt_cues segments) i = Some (cue_block (S i) segment)) /\
  srtContent segments = join nl (srt_cues segments) /\
  srtContent segments ++ nl = srt_blocks 1 segments.
Proof.
  intro Hne. split; [| split; [| split]].
  - apply map_index_length.
  - intros i segment H. unfold srt_cues.
    rewrite (map_index_nth _ 0 _ i segment H). simpl. apply f_equal, srt_cue_block.
  - reflexivity.
  - apply srt_join_blocks, Hne.
Qed.

Lemma srtContent_numbered_cues_witness :
  let segs := [ {| start := Js.of_Z 0; end_ := Js.lit 25 1; text := "Hello" |};
                {| start := Js.lit 25 1; end_ := Js.of_Z 5; text := "World" |} ] in
  segs <> [] /\ srtContent segs ++ nl = srt_blocks 1 segs.
Proof.
  intro segs. split; [discriminate |].
  apply (srtContent_numbered_cues segs). discriminate.
Defined.

(** C5, counterexample: read literally, every cue would end with a blank
    line; for a single segment the file holds no blank line at all. *)
Lemma srtContent_last_cue_no_blank_line :
  let segs := [ {| start := Js.of_Z 0; end_ := Js.lit 25 1; text := "Hello" |} ] in
  srtContent segs = "1" ++ nl ++ "00:00:00,000 --> 00:00:02,500" ++ nl ++ "Hello" ++ nl /\
  srtContent segs <> srt_blocks 1 segs.
Proof.
  intro segs. split.
  - vm_compute. reflexivity.
  - vm_compute. discriminate.
Qed.

Lemma files_fs_write_eq (fs : FS) (p : string) (c : option string) :
  files (fs_write fs p c) p = c.
Proof. simpl. now rewrite String.eqb_refl. Qed.

Lemma files_fs_write_ne (fs : FS) (p q : string) (c : option string) :
  q <> p -> files (fs_write fs p c) q = files fs q.
Proof. intro H. simpl. apply String.eqb_neq in H. now rewrite H. Qed.

(** What a run of the builder that returns did: it returned [srtPathOf env]
    and the file there holds [srtContent segments]; no other file changed. *)
Lemma generateSRTFile_result (segments : list TranslatedSegment) (env : Env) (fs fs' : FS) (p : string) :
  generateSRTFile segments env fs = (Ret p, fs') ->
  p = srtPathOf env /\ files fs' p = Some (srtContent segments) /\
  (forall q, q <> p -> files fs' q = files fs q).
Proof.
  unfold generateSRTFile, bind, ask, existsSync, ret, mkdirSync, writeFileSync.
  destruct (exists_at fs (Path.dirname (srtPathOf env))).
  - destruct (io_error env (WriteFile (srtPathOf env))); intro H; inversion H; subst.
    split; [reflexivity | split; [apply files_fs_write_eq |]].
    intros q Hq. now apply files_fs_write_ne.
  - destruct (io_error env (Mkdir (Path.dirname (srtPathOf env)))); [intro H; discriminate H |].
    destruct (io_error env (WriteFile (srtPathOf env))); intro H; inversion H; subst.
    split; [reflexivity | split; [apply files_fs_write_eq |]].
    intros q Hq. rewrite files_fs_write_ne by exact Hq. reflexivity.
Qed.

Lemma generateSRTFile_returns (segments : list TranslatedSegment) (env : Env) (fs : FS) :
  (forall c, io_error env c = None) ->
  exists fs', generateSRTFile segments env fs = (Ret (srtPathOf env), fs').
Proof.
  intro Hio.
  unfold generateSRTFile, bind, ask, existsSync, ret, mkdirSync, writeFileSync.
  cbv beta. destruct (exists_at fs (Path.dirname (srtPathOf env))); rewrite !Hio; eexists; reflexivity.
Qed.

(** C10: the subtitle text written is a function of the segments alone:
    two runs of the builder on the same segments, whatever their clocks,
    random suffixes and initial file systems, write byte-identical contents
    (only the paths differ); the style is not even an argument. *)
Theorem generateSRTFile_content_deterministic (segments : list TranslatedSegment)
    (env1 env2 : Env) (fs1 fs2 fs1' fs2' : FS) (p1 p2 : string) :
  generateSRTFile segments env1 fs1 = (Ret p1, fs1') ->
  generateSRTFile segments env2 fs2 = (Ret p2, fs2') ->
  files fs1' p1 = files fs2' p2 /\ files fs1' p1 = Some (srtContent segments).
Proof.
  intros H1 H2.
  destruct (generateSRTFile_result _ _ _ _ _ H1) as [_ [E1 _]].
  destruct (generateSRTFile_result _ _ _ _ _ H2) as [_ [E2 _]].
  rewrite E1, E2. split; reflexivity.
Qed.

Lemma generateSRTFile_content_deterministic_witness :
  let segs := [ {| start := Js.of_Z 0; end_ := Js.lit 25 1; text := "Hello" |} ] in
  files (snd (generateSRTFile segs env_render_fails fs_empty)) (srtPathOf env_render_fails) =
  files (snd (generateSRTFile segs env_other fs_empty)) (srtPathOf env_other).
Proof.
  intro segs.
  exact (proj1 (generateSRTFile_content_deterministic segs env_render_fails env_other fs_empty fs_empty
                  _ _ _ _ eq_refl eq_refl)).
Defined.

(** C6, counterexample: the builder accepts a segment with end <= start and
    writes a cue whose end time precedes its start time. *)
Lemma generateSRTFile_writes_inverted_cue :
  generateSRTFile segs_inverted env_render_fails fs_empty =
    (Ret "temp/subtitles_1700000000000_k3j9x0a1b.srt",
     snd (generateSRTFile segs_inverted env_render_fails fs_empty)) /\
  files (snd (generateSRTFile segs_inverted env_render_fails fs_empty))
        "temp/subtitles_1700000000000_k3j9x0a1b.srt" =
    Some ("1" ++ nl ++ "00:00:05,000 --> 00:00:02,000" ++ nl ++ "x" ++ nl).
Proof. split; vm_compute; reflexivity. Qed.

(** C6 (as corrected): the builder validates nothing.  When the file-system
    calls succeed it always returns the new path, and the file there holds
    the cues printed from the segments' start and end as given, whatever
    their order. *)
Theorem generateSRTFile_no_validation (segments : list TranslatedSegment) (env : Env) (fs : FS) :
  (forall c, io_error env c = None) ->
  exists fs', generateSRTFile segments env fs = (Ret (srtPathOf env), fs') /\
              files fs' (srtPathOf env) = Some (srtContent segments).
Proof.
  intro Hio. destruct (generateSRTFile_returns segments env fs Hio) as [fs' H].
  exists fs'. split; [exact H |].
  exact (proj1 (proj2 (generateSRTFile_result _ _ _ _ _ H))).
Qed.

Lemma generateSRTFile_no_validation_witness :
  (forall c, io_error env_render_fails c = None) /\
  exists fs', generateSRTFile segs_inverted env_render_fails fs_empty =
                (Ret (srtPathOf env_render_fails), fs') /\
              files fs' (srtPathOf env_render_fails) = Some (srtContent segs_inverted).
Proof.
  split; [intro c; reflexivity |].
  apply generateSRTFile_no_validation. intro c; reflexivity.
Defined.

(** ** The pipeline *)

(** C8: when the version probe fails the call returns the tool-not-found
    failure at once: the file system is the one the probe left, so no
    subtitle file is written, and no render command runs. *)
Theorem generateVideoWithSubtitles_probe_first (inputVideoPath : string)
    (segments : list TranslatedSegment) (style : SubtitleStyle) (env : Env)
    (fs fs0 : FS) (m : string) :
  run env "ffmpeg -version" fs = (ExecErr m, fs0) ->
  generateVideoWithSubtitles inputVideoPath segments style env fs =
    (Ret {| success := false; message := msg_not_found; outputPath := None |}, fs0).
Proof.
  intro Hprobe.
  unfold generateVideoWithSubtitles, try_catch, bind, execAsync, ret.
  cbv beta. rewrite Hprobe. reflexivity.
Qed.

Lemma generateVideoWithSubtitles_probe_first_witness :
  generateVideoWithSubtitles "temp/abc" segs_hello style_default env_no_ffmpeg fs_empty =
    (Ret {| success := false; message := msg_not_found; outputPath := None |}, fs_empty).
Proof.
  apply (generateVideoWithSubtitles_probe_first "temp/abc" segs_hello style_default env_no_ffmpeg
           fs_empty fs_empty "Command failed: ffmpeg -version (/bin/sh: 1: ffmpeg: not found)").
  reflexivity.
Defined.

Lemma ret_ok_ret {A : Type} (P : A -> Prop) (a : A) : P a -> ret_ok P (ret a).
Proof. intros H env fs. exact H. Qed.

Lemma ret_ok_bind {A B : Type} (P : B -> Prop) (m : M A) (k : A -> M B) :
  (forall a, ret_ok P (k a)) -> ret_ok P (bind m k).
Proof.
  intros Hk env fs. unfold bind.
  destruct (m env fs) as [[a | e] fs1]; [apply Hk | exact I].
Qed.

Lemma try_catch_returns {A : Type} (P : A -> Prop) (m : M A) (h : string -> M A) :
  ret_ok P m ->
  (forall e env fs, exists v, fst (h e env fs) = Ret v /\ P v) ->
  forall env fs, exists v, fst (try_catch m h env fs) = Ret v /\ P v.
Proof.
  intros Hm Hh env fs. unfold try_catch.
  specialize (Hm env fs).
  destruct (m env fs) as [[a | e] fs1] eqn:E; simpl in Hm |- *.
  - exists a. split; [reflexivity | exact Hm].
  - apply Hh.
Qed.

Ltac ret_ok_step :=
  match goal with
  | |- ret_ok _ (ret _) => apply ret_ok_ret; unfold result_shape; simpl;
                           split; intro; congruence
  | |- ret_ok _ (bind _ _) => apply ret_ok_bind; intro
  | |- ret_ok _ (if ?b then _ else _) => destruct b
  | |- ret_ok _ (let _ := _ in _) => cbv zeta
  end.

(** C9: every call returns a result (never a rejection), whatever the
    environment does, including a throwing file-system call or a failing
    process; in every result [outputPath] is set exactly when [success] is
    true. *)
Theorem generateVideoWithSubtitles_total (inputVideoPath : string)
    (segments : list TranslatedSegment) (style : SubtitleStyle) (env : Env) (fs : FS) :
  exists v, fst (generateVideoWithSubtitles inputVideoPath segments style env fs) = Ret v /\
            (success v = true <-> outputPath v <> None).
Proof.
  apply (try_catch_returns result_shape).
  - repeat ret_ok_step.
  - intros e env' fs'. eexists. split; [reflexivity |].
    unfold result_shape; simpl. split; intro; congruence.
Qed.

(** C1, failing input: ffmpeg is installed, the builder writes the
    subtitle file, the render command exits with an error; the call
    returns through the catch branch and the subtitle file is still on
    disk. *)
Theorem generateVideoWithSubtitles_keeps_srt_on_render_error :
  fst (generateVideoWithSubtitles "temp/abc" segs_hello style_default env_render_fails fs_empty) =
    Ret {| success := false;
           message := "Erro na geração: Command failed: ffmpeg (exit code 1)";
           outputPath := None |} /\
  files (snd (generateVideoWithSubtitles "temp/abc" segs_hello style_default env_render_fails fs_empty))
        srt_hello = Some (srtContent segs_hello).
Proof. split; vm_compute; reflexivity. Qed.

(** On the two other paths the subtitle file is removed: when the render
    command succeeds and leaves the subtitle file in place, it is gone when
    the call returns, whether or not the output was created. *)
Lemma generateVideoWithSubtitles_removes_srt_when_render_ok (inputVideoPath : string)
    (segments : list TranslatedSegment) (style : SubtitleStyle) (env : Env)
    (fs fs0 fs1 fs2 : FS) (o e o' e' : string) :
  (forall c, io_error env c = None) ->
  run env "ffmpeg -version" fs = (ExecOk o e, fs0) ->
  generateSRTFile segments env fs0 = (Ret (srtPathOf env), fs1) ->
  run env (buildFFmpegCommand inputVideoPath (srtPathOf env) (outputPathOf env inputVideoPath) style) fs1
    = (ExecOk o' e', fs2) ->
  files fs2 (srtPathOf env) <> None ->
  files (snd (generateVideoWithSubtitles inputVideoPath segments style env fs)) (srtPathOf env) = None.
Proof.
  intros Hio Hprobe Hsrt Hrender Hkept.
  unfold generateVideoWithSubtitles, generateOutputPath.
  unfold try_catch, bind, execAsync, ret, ask, existsSync, statSync, unlinkSync.
  cbv beta. rewrite Hprobe. cbv beta iota zeta delta [negb].
  rewrite Hsrt. cbv beta iota zeta. rewrite Hrender. cbv beta iota zeta.
  destruct (files fs2 (srtPathOf env)) as [c |] eqn:Ec; [| contradiction].
  destruct (exists_at fs2 (outputPathOf env inputVideoPath)) eqn:Ex;
    cbv beta iota; rewrite !Hio.
  - destruct (files fs2 (outputPathOf env inputVideoPath)) as [c' |] eqn:Eo.
    + rewrite Ec. simpl. now rewrite String.eqb_refl.
    + unfold exists_at in Ex. rewrite Eo in Ex. simpl in Ex. rewrite Ex.
      rewrite Ec. simpl. now rewrite String.eqb_refl.
  - rewrite Ec. simpl. now rewrite String.eqb_refl.
Qed.




(** ** Quoting of the render command *)

(** C7, failing input: the paths are only wrapped in double quotes, so a
    double quote inside the input path closes the quoted word and the shell
    runs the command that follows it ([touch pwned]), once for the input path
    and once more for the output path derived from it; with an ordinary path
    the same construction gives a single command. *)
Theorem buildFFmpegCommand_quote_injection :
  nth_error (shell_commands
    (buildFFmpegCommand path_with_quotes srt_hello (outputPathOf env_render_fails path_with_quotes)
       style_default)) 1 = Some " touch pwned" /\
  length (shell_commands
    (buildFFmpegCommand path_with_quotes srt_hello (outputPathOf env_render_fails path_with_quotes)
       style_default)) = 5 /\
  length (shell_commands (buildFFmpegCommand "temp/abc" srt_hello out_abc style_default)) = 1.
Proof. repeat split; vm_compute; reflexivity. Qed.


(* ------------------------------------------------------------------ *)
(** ** Strings and paths *)

Lemma str_length_app (a b : string) : String.length (a ++ b) = String.length a + String.length b.
Proof. induction a as [| x a IH]; simpl; [reflexivity | now rewrite IH]. Qed.

Lemma substring_app_l (a b : string) : substring 0 (String.length a) (a ++ b) = a.
Proof. induction a as [| x a IH]; simpl; [now destruct b | now rewrite IH]. Qed.

Lemma substring_app_r (a b : string) (n m : nat) :
  substring (String.length a + n) m (a ++ b) = substring n m b.
Proof. induction a as [| x a IH]; simpl; [reflexivity | exact IH]. Qed.

Lemma substring_all (s : string) (m : nat) : String.length s <= m -> substring 0 m s = s.
Proof.
  revert m; induction s as [| x s IH]; intros m H; simpl in *.
  - now destruct m.
  - destruct m as [| m]; [lia |]. rewrite IH by lia. reflexivity.
Qed.

Lemma str_forall_app (f : ascii -> bool) (a b : string) :
  str_forall f (a ++ b) = andb (str_forall f a) (str_forall f b).
Proof. induction a as [| x a IH]; simpl; [reflexivity | rewrite IH; apply andb_assoc]. Qed.

Lemma str_forall_substring (f : ascii -> bool) (s : string) (n m : nat) :
  str_forall f s = true -> str_forall f (substring n m s) = true.
Proof.
  revert n m; induction s as [| x s IH]; intros n m H; simpl in *.
  - destruct n, m; reflexivity.
  - apply andb_true_iff in H as [Hx Hs].
    destruct n as [| n]; [destruct m as [| m] |]; simpl; try reflexivity.
    + rewrite Hx. apply IH, Hs.
    + apply IH, Hs.
Qed.

Lemma last_index_app (c : ascii) (a b : string) (i : nat) (acc : option nat) :
  Path.last_index c (a ++ b) i acc = Path.last_index c b (i + String.length a) (Path.last_index c a i acc).
Proof.
  revert i acc; induction a as [| x a IH]; intros i acc; simpl.
  - now rewrite Nat.add_0_r.
  - rewrite IH. now rewrite Nat.add_succ_r.
Qed.

Lemma last_index_free (c : ascii) (s : string) (i : nat) (acc : option nat) :
  nochar c s = true -> Path.last_index c s i acc = acc.
Proof.
  unfold nochar. revert i acc; induction s as [| x s IH]; intros i acc H; simpl in *; [reflexivity |].
  apply andb_true_iff in H as [Hx Hs]. apply negb_true_iff in Hx. rewrite Hx. apply IH, Hs.
Qed.

(** Every path is a file name, or a prefix, a slash and a file name. *)
Lemma path_split (p : string) :
  nochar "/" p = true \/ exists a f, p = a ++ String "/" f /\ nochar "/" f = true.
Proof.
  induction p as [| x p IH]; [left; reflexivity |].
  destruct IH as [Hp | [a [f [-> Hf]]]].
  - destruct (Ascii.eqb "/" x) eqn:E.
    + apply Ascii.eqb_eq in E; subst x. right. exists "", p. split; [reflexivity | exact Hp].
    + left. unfold nochar in *; cbn [str_forall]. rewrite E. exact Hp.
  - right. exists (String x a), f. split; [reflexivity | exact Hf].
Qed.

Lemma last_slash (a f : string) :
  nochar "/" f = true -> Path.last_index "/" (a ++ String "/" f) 0 None = Some (String.length a).
Proof.
  intro Hf. rewrite last_index_app. simpl. apply last_index_free, Hf.
Qed.

Lemma base_of_free (f : string) : nochar "/" f = true -> Path.base_of f = f.
Proof. intro Hf. unfold Path.base_of. now rewrite last_index_free. Qed.

Lemma base_of_slash (a f : string) : nochar "/" f = true -> Path.base_of (a ++ String "/" f) = f.
Proof.
  intro Hf. unfold Path.base_of. rewrite last_slash by exact Hf.
  rewrite <- Nat.add_1_r, substring_app_r. simpl.
  apply substring_all. rewrite str_length_app; simpl; lia.
Qed.

Lemma base_of_nochar (p : string) : nochar "/" (Path.base_of p) = true.
Proof.
  destruct (path_split p) as [Hp | [a [f [-> Hf]]]].
  - now rewrite base_of_free.
  - now rewrite base_of_slash.
Qed.

Lemma base_of_idem (p : string) : Path.base_of (Path.base_of p) = Path.base_of p.
Proof. apply base_of_free, base_of_nochar. Qed.

Lemma extname_base (p : string) : Path.extname p = Path.extname (Path.base_of p).
Proof. unfold Path.extname at 2. now rewrite base_of_idem. Qed.

Lemma basename_base (p e : string) : Path.basename p e = Path.basename (Path.base_of p) e.
Proof. unfold Path.basename at 2. now rewrite base_of_idem. Qed.

Lemma dirname_free (f : string) : nochar "/" f = true -> Path.dirname f = ".".
Proof. intro Hf. unfold Path.dirname. now rewrite last_index_free. Qed.

Lemma dirname_slash (a f : string) :
  a <> "" -> nochar "/" f = true -> Path.dirname (a ++ String "/" f) = a.
Proof.
  intros Ha Hf. unfold Path.dirname. rewrite last_slash by exact Hf.
  destruct a as [| x a']; [congruence |].
  change (substring 0 (String.length (String x a')) (String x a' ++ String "/" f) = String x a').
  apply substring_app_l.
Qed.

Lemma dirname_root (f : string) : nochar "/" f = true -> Path.dirname (String "/" f) = "/".
Proof.
  intro Hf. unfold Path.dirname.
  change (String "/" f) with ("" ++ String "/" f). rewrite last_slash by exact Hf. reflexivity.
Qed.

Lemma last_char (c : ascii) (a f : string) :
  nochar c f = true -> Path.last_index c (a ++ String c f) 0 None = Some (String.length a).
Proof.
  intro Hf. rewrite last_index_app. simpl. rewrite Ascii.eqb_refl. apply last_index_free, Hf.
Qed.

Lemma nochar_app (c : ascii) (a b : string) :
  nochar c (a ++ b) = andb (nochar c a) (nochar c b).
Proof. apply str_forall_app. Qed.

Lemma nochar_substring (c : ascii) (s : string) (n m : nat) :
  nochar c s = true -> nochar c (substring n m s) = true.
Proof. apply str_forall_substring. Qed.

Lemma str_app_inv_l (a b c : string) : a ++ b = a ++ c -> b = c.
Proof. induction a as [| x a IH]; simpl; intro H; [exact H | inversion H; auto]. Qed.

(** A file name with no dot has no extension. *)
Lemma extname_nodot (f : string) :
  nochar "/" f = true -> nochar "." f = true ->
  Path.extname f = "" /\ Path.basename f "" = f.
Proof.
  intros Hs Hd. unfold Path.extname, Path.basename.
  rewrite base_of_free by exact Hs. rewrite last_index_free by exact Hd. split; [reflexivity |].
  change (String.length "") with 0.
  destruct (Nat.ltb 0 (String.length f)) eqn:E; simpl; [| reflexivity].
  rewrite Nat.sub_0_r.
  replace (substring (String.length f) 0 f) with "".
  - simpl. apply substring_all. lia.
  - clear. induction f as [| x f IH]; simpl; [reflexivity | exact IH].
Qed.

(** The extension of [stem.t] is [.t], and stripping it gives [stem]. *)
Lemma extname_dot (s t : string) :
  s <> "" -> nochar "/" s = true -> nochar "/" t = true -> nochar "." t = true ->
  Path.extname (s ++ String "." t) = String "." t /\
  Path.basename (s ++ String "." t) (String "." t) = s.
Proof.
  intros Hne Hs Ht Hd.
  assert (Hf : nochar "/" (s ++ String "." t) = true)
    by (rewrite nochar_app; rewrite Hs; exact Ht).
  assert (Hl : String.length s <> 0) by (destruct s; simpl; congruence).
  unfold Path.extname, Path.basename. rewrite base_of_free by exact Hf.
  rewrite last_char by exact Hd.
  destruct (String.length s) as [| k] eqn:Ek; [congruence |].
  rewrite <- Ek. split.
  - rewrite <- (Nat.add_0_r (String.length s)), substring_app_r.
    apply substring_all. rewrite str_length_app. simpl. lia.
  - rewrite str_length_app. cbn [String.length].
    replace (Nat.ltb (S (String.length t)) (String.length s + S (String.length t))) with true
      by (symmetry; apply Nat.ltb_lt; lia).
    replace (String.length s + S (String.length t) - S (String.length t)) with (String.length s + 0) by lia.
    rewrite substring_app_r, substring_all by (simpl; lia).
    rewrite String.eqb_refl. simpl. rewrite Nat.add_0_r. apply substring_app_l.
Qed.

Lemma basename_nochar (p e : string) : nochar "/" (Path.basename p e) = true.
Proof.
  unfold Path.basename. pose proof (base_of_nochar p) as H.
  destruct (andb _ _); [apply nochar_substring |]; exact H.
Qed.

Section Derived.

Variables x t : string.
Hypothesis Hx : x <> "".
Hypothesis Hxs : nochar "/" x = true.
Hypothesis Hts : nochar "/" t = true.
Hypothesis Htd : nochar "." t = true.

Let stem (p : string) := Path.basename p (Path.extname p).
Let name (p : string) := stem p ++ x ++ String "." t.

Lemma name_nochar (p : string) : nochar "/" (name p) = true.
Proof.
  unfold name, stem. rewrite !nochar_app, basename_nochar, Hxs. exact Hts.
Qed.

Lemma name_ext (p : string) :
  Path.extname (name p) = String "." t /\ Path.basename (name p) (String "." t) = stem p ++ x.
Proof.
  unfold name. rewrite <- str_app_assoc. apply extname_dot; try assumption.
  - destruct (stem p); [destruct x; [congruence | discriminate] | discriminate].
  - rewrite nochar_app. unfold stem. rewrite basename_nochar. exact Hxs.
Qed.

Lemma name_not_base (p : string) : Path.base_of p <> name p.
Proof.
  intro E. destruct (name_ext p) as [E1 E2].
  assert (Hext : Path.extname p = String "." t) by (rewrite extname_base, E; exact E1).
  assert (Hst : stem p = stem p ++ x).
  { unfold stem at 1. rewrite Hext, basename_base, E. exact E2. }
  apply (f_equal String.length) in Hst. rewrite str_length_app in Hst.
  destruct x; [congruence | simpl in Hst; lia].
Qed.

Lemma derived_path (p : string) :
  let q := Path.join (Path.dirname p) (name p) in
  q <> p /\ Path.dirname q = Path.dirname p /\ Path.extname q = String "." t.
Proof.
  intro q. subst q. pose proof (name_nochar p) as Hn.
  pose proof (name_ext p) as [He _].
  destruct (path_split p) as [Hp | [a [f [Ep Hf]]]].
  - rewrite (dirname_free p Hp). unfold Path.join. simpl.
    split; [| split].
    + intro E. apply (name_not_base p). rewrite base_of_free by exact Hp. congruence.
    + now apply dirname_free.
    + rewrite extname_base, base_of_free by exact Hn. exact He.
  - destruct (string_dec a "") as [-> | Ha].
    + simpl in Ep. subst p. rewrite (dirname_root f Hf). unfold Path.join. simpl.
      change (String "/" (String "/" (name (String "/" f))))
        with ("/" ++ String "/" (name (String "/" f))).
      split; [| split].
      * intro E. injection E as E. rewrite <- E in Hf. simpl in Hf. discriminate Hf.
      * apply dirname_slash; [discriminate | exact Hn].
      * rewrite extname_base, base_of_slash by exact Hn. exact He.
    + subst p. rewrite (dirname_slash a f Ha Hf). unfold Path.join.
      destruct (String.eqb a ".") eqn:Ed.
      * apply String.eqb_eq in Ed. subst a. split; [| split].
        -- intro E. rewrite E, nochar_app in Hn. discriminate Hn.
        -- now apply dirname_free.
        -- rewrite extname_base, base_of_free by exact Hn. exact He.
      * change ("/" ++ name (a ++ String "/" f)) with (String "/" (name (a ++ String "/" f))).
        split; [| split].
        -- intro E. apply str_app_inv_l in E. injection E as E.
           apply (name_not_base (a ++ String "/" f)). rewrite base_of_slash by exact Hf. congruence.
        -- apply dirname_slash; assumption.
        -- rewrite extname_base, base_of_slash by exact Hn. exact He.
Qed.

End Derived.

(* ------------------------------------------------------------------ *)
(** ** TranslationService *)

Module TranslationFacts.

Import Translation.


Lemma nth_error_map_seq {A : Type} (f : nat -> A) (n i : nat) :
  nth_error (map f (seq 0 n)) i = if Nat.ltb i n then Some (f i) else None.
Proof.
  rewrite nth_error_map. destruct (Nat.ltb i n) eqn:E.
  - apply Nat.ltb_lt in E. rewrite nth_error_seq. destruct (Nat.ltb i n) eqn:E2; [reflexivity|].
    apply Nat.ltb_ge in E2; lia.
  - apply Nat.ltb_ge in E. rewrite nth_error_seq. destruct (Nat.ltb i n) eqn:E2; [|reflexivity].
    apply Nat.ltb_lt in E2; lia.
Qed.

Lemma mockTexts_nonempty (k : nat) : k < 10 -> nth k mockTexts "" <> "".
Proof. intro H. do 10 (destruct k as [| k]; [discriminate |]). lia. Qed.

Lemma estimatedDuration_range (size : nat) : (9 <= estimatedDuration size <= 60)%Z.
Proof. unfold estimatedDuration. lia. Qed.

Lemma numSegments_bounds (d : Z) :
  (9 <= d)%Z ->
  (3 * Z.of_nat (numSegments d) - 3 < d <= 3 * Z.of_nat (numSegments d))%Z.
Proof.
  intro Hd. unfold numSegments, segmentDuration.
  pose proof (Z.div_mod (d + 3 - 1) 3 ltac:(lia)) as Hm.
  pose proof (Z.mod_pos_bound (d + 3 - 1) 3 ltac:(lia)) as Hb.
  assert (0 <= (d + 3 - 1) / 3)%Z by (apply Z.div_pos; lia).
  rewrite Z2Nat.id by lia. lia.
Qed.

(** X2: for every file size the mock transcription has between 3 and 20
    segments that tile [0, d], with d the estimated duration (9 to 60 s):
    segment i starts at 3i and ends after it, at most 3 s later; each
    segment ends where the next starts; the last ends at d; the text of
    segment i is the (i mod 10)-th mock text, never the generated fallback;
    no segment carries a translation. *)
Theorem transcribeAudio_segments_tile (size : nat) :
  let d := estimatedDuration size in
  let segs := mockSegments d in
  (9 <= d <= 60)%Z /\ 3 <= length segs <= 20 /\
  (forall i seg, nth_error segs i = Some seg ->
     exists e, start seg = Js.of_Z (3 * Z.of_nat i) /\ end_ seg = Js.of_Z e /\
               (0 < e - 3 * Z.of_nat i <= 3)%Z /\
               originalText seg = nth (i mod 10) mockTexts "" /\ translatedText seg = None) /\
  (forall i seg seg', nth_error segs i = Some seg -> nth_error segs (S i) = Some seg' ->
     end_ seg = start seg') /\
  (exists last, nth_error segs (length segs - 1) = Some last /\ end_ last = Js.of_Z d).
Proof.
  intros d segs. pose proof (estimatedDuration_range size) as Hd. fold d in Hd.
  pose proof (numSegments_bounds d ltac:(lia)) as Hn.
  assert (Hl : length segs = numSegments d) by (subst segs; unfold mockSegments; now rewrite length_map, length_seq).
  assert (Hnth : forall i, nth_error segs i = if Nat.ltb i (numSegments d) then Some (mockSegment d i) else None)
    by (intro i; apply nth_error_map_seq).
  split; [exact Hd | split; [| split; [| split]]].
  - rewrite Hl. clearbody d segs. lia.
  - intros i seg H. rewrite Hnth in H. destruct (Nat.ltb i (numSegments d)) eqn:Ei; [| discriminate].
    apply Nat.ltb_lt in Ei. injection H as <-.
    exists (Z.min ((Z.of_nat i + 1) * segmentDuration) d). unfold mockSegment, segmentDuration; cbn [start end_ originalText translatedText].
    split; [f_equal; lia | split; [reflexivity | split; [lia | split; [| reflexivity]]]].
    change (length mockTexts) with 10.
    destruct (String.eqb _ "") eqn:Et; [| reflexivity].
    apply String.eqb_eq in Et. exfalso. revert Et. apply mockTexts_nonempty, Nat.mod_upper_bound. lia.
  - intros i seg seg' H H'. rewrite Hnth in H, H'.
    destruct (Nat.ltb (S i) (numSegments d)) eqn:Ei; [| discriminate].
    apply Nat.ltb_lt in Ei. replace (Nat.ltb i (numSegments d)) with true in H
      by (symmetry; apply Nat.ltb_lt; lia).
    injection H as <-. injection H' as <-. unfold mockSegment, segmentDuration; cbn [start end_ originalText translatedText].
    f_equal. lia.
  - exists (mockSegment d (numSegments d - 1)). rewrite Hl, Hnth.
    replace (Nat.ltb (numSegments d - 1) (numSegments d)) with true
      by (symmetry; apply Nat.ltb_lt; lia).
    split; [reflexivity |]. unfold mockSegment, segmentDuration; cbn [start end_ originalText translatedText]. f_equal. lia.
Qed.

(** X1: [transcribeAudio] never rejects and never changes the file
    system: it returns the mock segments of the file size when something
    exists at the path and its size can be read, and the three fixed
    fallback segments when nothing exists there or [statSync] throws. *)
Theorem transcribeAudio_outcome (audioPath : string) (env : Env) (fs : FS) :
  transcribeAudio audioPath env fs =
  (Ret (if exists_at fs audioPath then
          match fst (statSync audioPath env fs) with
          | Ret size => mockSegments (estimatedDuration size)
          | Throw _ => fallbackSegments
          end
        else fallbackSegments), fs).
Proof.
  unfold transcribeAudio, try_catch, bind, existsSync.
  destruct (exists_at fs audioPath); cbv beta iota delta [negb]; [| reflexivity].
  unfold statSync; cbv beta iota. destruct (io_error env (Stat audioPath)); [reflexivity |].
  destruct (files fs audioPath); [reflexivity |]. destruct (dirs fs audioPath); reflexivity.
Qed.

Lemma in_memZ (u : Z) (l : list Z) : In u l <-> existsb (Z.eqb u) l = true.
Proof.
  rewrite existsb_exists. split.
  - intro H. exists u. split; [exact H | apply Z.eqb_refl].
  - intros [v [Hv E]]. apply Z.eqb_eq in E. now subst v.
Qed.

Lemma class_test_spec (cls text : list Z) :
  class_test cls text = true <-> exists u, In u text /\ In u cls.
Proof.
  unfold class_test. rewrite existsb_exists. split; intros [u [H1 H2]]; exists u;
    split; try exact H1; apply in_memZ; exact H2.
Qed.

Lemma class_test_none (cls text : list Z) :
  class_test cls text = false <-> forall u, In u text -> ~ In u cls.
Proof.
  split.
  - intros H u Hu Hc. assert (class_test cls text = true) by (apply class_test_spec; eauto). congruence.
  - intro H. destruct (class_test cls text) eqn:E; [| reflexivity].
    apply class_test_spec in E as [u [Hu Hc]]. exfalso. exact (H u Hu Hc).
Qed.

Ltac letters_in :=
  let H := fresh in
  intros H ?; simpl in H; repeat destruct H as [<- | H]; try contradiction;
  first [ apply in_memZ; reflexivity
        | exfalso; match goal with Hn : ~ In _ _ |- _ => apply Hn, in_memZ; reflexivity end ].

Ltac letters_out :=
  let H := fresh in
  intros H; simpl in H; repeat destruct H as [<- | H]; try contradiction;
  repeat split; first [ apply in_memZ; reflexivity | rewrite in_memZ; discriminate ].

Lemma spanish_only (u : Z) :
  In u spanish -> ~ In u portuguese -> In u [0xF1; 0xFC; 0xD1; 0xDC]%Z.
Proof. letters_in. Qed.

Lemma spanish_only_rev (u : Z) :
  In u [0xF1; 0xFC; 0xD1; 0xDC]%Z -> In u spanish /\ ~ In u portuguese.
Proof. letters_out. Qed.

Lemma french_only (u : Z) :
  In u french -> ~ In u (portuguese ++ spanish) ->
  In u [0xE4; 0xE8; 0xEB; 0xEF; 0xEE; 0xF9; 0xFB; 0xFF;
        0xC4; 0xC8; 0xCB; 0xCF; 0xCE; 0xD9; 0xDB; 0x178]%Z.
Proof. letters_in. Qed.

Lemma french_only_rev (u : Z) :
  In u [0xE4; 0xE8; 0xEB; 0xEF; 0xEE; 0xF9; 0xFB; 0xFF;
        0xC4; 0xC8; 0xCB; 0xCF; 0xCE; 0xD9; 0xDB; 0x178]%Z ->
  In u french /\ ~ In u (portuguese ++ spanish).
Proof. letters_out. Qed.

(** X6: the detected language.  "pt" exactly when a Portuguese letter
    occurs; "es" exactly when none does and one of ñ ü Ñ Ü occurs (the
    other Spanish letters are Portuguese ones); "fr" exactly when neither
    a Portuguese nor a Spanish letter occurs and one of ä è ë ï î ù û ÿ or
    their upper-case forms does; "en" exactly when no listed letter occurs. *)
Theorem detectLanguage_cases (text : list Z) :
  (detectLanguage text = "pt" <-> exists u, In u text /\ In u portuguese) /\
  (detectLanguage text = "es" <->
     (forall u, In u text -> ~ In u portuguese) /\
     exists u, In u text /\ In u [0xF1; 0xFC; 0xD1; 0xDC]%Z) /\
  (detectLanguage text = "fr" <->
     (forall u, In u text -> ~ In u (portuguese ++ spanish)) /\
     exists u, In u text /\ In u [0xE4; 0xE8; 0xEB; 0xEF; 0xEE; 0xF9; 0xFB; 0xFF;
                                  0xC4; 0xC8; 0xCB; 0xCF; 0xCE; 0xD9; 0xDB; 0x178]%Z) /\
  (detectLanguage text = "en" <->
     forall u, In u text -> ~ In u (portuguese ++ spanish ++ french)).
Proof.
  unfold detectLanguage.
  destruct (class_test portuguese text) eqn:Ep;
  [| destruct (class_test spanish text) eqn:Es;
     [| destruct (class_test french text) eqn:Ef]].
  - apply class_test_spec in Ep as [u [Hu Hp]].
    refine (conj _ (conj _ (conj _ _))); split; intro H; try discriminate; try reflexivity.
    + eauto.
    + destruct H as [H _]. exfalso. exact (H u Hu Hp).
    + destruct H as [H _]. exfalso. apply (H u Hu), in_or_app. now left.
    + exfalso. apply (H u Hu), in_or_app. now left.
  - rewrite class_test_none in Ep. apply class_test_spec in Es as [u [Hu Hs]].
    refine (conj _ (conj _ (conj _ _))); split; intro H; try discriminate; try reflexivity.
    + destruct H as [v [Hv Hp]]. exfalso. exact (Ep v Hv Hp).
    + split; [exact Ep |]. exists u. split; [exact Hu | apply spanish_only; auto].
    + destruct H as [H _]. exfalso. apply (H u Hu), in_or_app. now right.
    + exfalso. apply (H u Hu), in_or_app. right. apply in_or_app. now left.
  - rewrite class_test_none in Ep, Es. apply class_test_spec in Ef as [u [Hu Hf]].
    assert (Hn : forall v, In v text -> ~ In v (portuguese ++ spanish))
      by (intros v Hv Hv'; apply in_app_or in Hv' as [Hv' | Hv']; [exact (Ep v Hv Hv') | exact (Es v Hv Hv')]).
    refine (conj _ (conj _ (conj _ _))); split; intro H; try discriminate; try reflexivity.
    + destruct H as [v [Hv Hp]]. exfalso. exact (Ep v Hv Hp).
    + destruct H as [_ [v [Hv Hv']]]. apply spanish_only_rev in Hv' as [Hs _]. exfalso. exact (Es v Hv Hs).
    + split; [exact Hn |]. exists u. split; [exact Hu | apply french_only; auto].
    + exfalso. apply (H u Hu). rewrite app_assoc. apply in_or_app. now right.
  - rewrite class_test_none in Ep, Es, Ef.
    refine (conj _ (conj _ (conj _ _))); split; intro H; try discriminate; try reflexivity.
    + destruct H as [v [Hv Hp]]. exfalso. exact (Ep v Hv Hp).
    + destruct H as [_ [v [Hv Hv']]]. apply spanish_only_rev in Hv' as [Hs _]. exfalso. exact (Es v Hv Hs).
    + destruct H as [_ [v [Hv Hv']]]. apply french_only_rev in Hv' as [Hf _]. exfalso. exact (Ef v Hv Hf).
    + intros u Hu Hu'. rewrite app_assoc in Hu'. apply in_app_or in Hu' as [Hu' | Hu'];
        [apply in_app_or in Hu' as [Hu' | Hu'] |].
      * exact (Ep u Hu Hu').
      * exact (Es u Hu Hu').
      * exact (Ef u Hu Hu').
Qed.

Lemma translations_not_prototype (tl : string) (dict : list (string * string)) :
  translations tl = Some dict -> is_prototype_key tl = false.
Proof.
  unfold translations.
  destruct (String.eqb tl "pt") eqn:E1; [apply String.eqb_eq in E1; subst; reflexivity |].
  destruct (String.eqb tl "es") eqn:E2; [apply String.eqb_eq in E2; subst; reflexivity |].
  destruct (String.eqb tl "fr") eqn:E3; [apply String.eqb_eq in E3; subst; reflexivity |].
  discriminate.
Qed.

Lemma translateText_some (toLowerCase : string -> string) (google : string -> string -> string -> option string)
    (text sl tl : string) :
  is_prototype_key tl = false -> exists t, translateText toLowerCase google text sl tl = Some t.
Proof.
  intro Hk. unfold translateText, translateWithDictionary. rewrite Hk.
  destruct (translateWithGoogle google text sl tl) as [t |]; [destruct (String.eqb t "") |];
    try (destruct (translations tl)); eauto.
Qed.

Lemma translate_all_spec (toLowerCase : string -> string) (google : string -> string -> string -> option string)
    (segs : list TranslationSegment) (sl tl : string) :
  is_prototype_key tl = false ->
  exists ts, translate_all toLowerCase google segs sl tl = Some ts /\ length ts = length segs /\
    forall i seg, nth_error segs i = Some seg ->
      exists t, translateText toLowerCase google (originalText seg) sl tl = Some t /\
        nth_error ts i = Some {| start := start seg; end_ := end_ seg;
                                 originalText := originalText seg; translatedText := Some t |}.
Proof.
  intro Hk. induction segs as [| seg rest IH].
  - exists []. split; [reflexivity | split; [reflexivity |]]. intros [|i] ? H; discriminate.
  - destruct IH as [ts [Ets [Hlen Hts]]].
    destruct (translateText_some toLowerCase google (originalText seg) sl tl Hk) as [t Et].
    eexists. simpl. rewrite Et, Ets. split; [reflexivity | split; [simpl; congruence |]].
    intros [| i] s H; simpl in H.
    + injection H as <-. exists t. split; [exact Et | reflexivity].
    + exact (Hts i s H).
Qed.

(** X3: for every target language that is not an [Object.prototype]
    property name, [translateSegments] succeeds, whatever the translation
    service answers: success is true, the message names the language, and
    the i-th output segment is the i-th input segment with the same
    start, end and original text, and with [translatedText] set to what
    [translateText] gives for that text. *)
Theorem translateSegments_always_succeeds (toLowerCase : string -> string)
    (google : string -> string -> string -> option string)
    (segs : list TranslationSegment) (targetLanguage sourceLanguage : string) :
  is_prototype_key targetLanguage = false ->
  exists r ts, translateSegments toLowerCase google segs targetLanguage sourceLanguage = Some r /\
    success r = true /\ message r = "Tradução concluída para " ++ targetLanguage /\
    segments r = Some ts /\ length ts = length segs /\
    forall i seg, nth_error segs i = Some seg ->
      exists t, translateText toLowerCase google (originalText seg) sourceLanguage targetLanguage = Some t /\
        nth_error ts i = Some {| start := start seg; end_ := end_ seg;
                                 originalText := originalText seg; translatedText := Some t |}.
Proof.
  intro Hk. destruct (translate_all_spec toLowerCase google segs sourceLanguage targetLanguage Hk)
    as [ts [Ets [Hlen Hts]]].
  unfold translateSegments. rewrite Ets. eexists _, ts. split; [reflexivity |].
  repeat split; assumption.
Qed.

Lemma translateSegments_always_succeeds_witness :
  is_prototype_key "pt" = false /\
  exists r ts, translateSegments (fun s => s) (fun _ _ _ => None) fallbackSegments "pt" "auto" = Some r /\
    success r = true /\ message r = "Tradução concluída para " ++ "pt" /\
    segments r = Some ts /\ length ts = length fallbackSegments /\
    forall i seg, nth_error fallbackSegments i = Some seg ->
      exists t, translateText (fun s => s) (fun _ _ _ => None) (originalText seg) "auto" "pt" = Some t /\
        nth_error ts i = Some {| start := start seg; end_ := end_ seg;
                                 originalText := originalText seg; translatedText := Some t |}.
Proof.
  split; [reflexivity |].
  apply (translateSegments_always_succeeds (fun s => s) (fun _ _ _ => None) fallbackSegments "pt" "auto").
  reflexivity.
Defined.

Lemma dictionaries_no_prototype_keys (tl : string) (dict : list (string * string)) :
  translations tl = Some dict ->
  find (fun kv => String.eqb (fst kv) "constructor") dict = None /\
  find (fun kv => String.eqb (fst kv) "__proto__") dict = None.
Proof.
  unfold translations.
  destruct (String.eqb tl "pt"); [intro H; injection H as <-; split; reflexivity |].
  destruct (String.eqb tl "es"); [intro H; injection H as <-; split; reflexivity |].
  destruct (String.eqb tl "fr"); [intro H; injection H as <-; split; reflexivity |].
  discriminate.
Qed.

(** X5: with a dictionary language the result is the lower-cased text's
    white-space-separated words joined by single spaces, each word mapped
    on its own: a word whose letters spell "constructor" becomes the
    source text of the [Object] function, one spelling "__proto__" becomes
    "[object Object]", and a word that is neither a dictionary key nor an
    [Object.prototype] property stays as it is. *)
Theorem translateWithDictionary_words (toLowerCase : string -> string) (text targetLanguage : string)
    (dictionary : list (string * string)) :
  translations targetLanguage = Some dictionary ->
  let words := split_ws (toLowerCase text) in
  exists ws, translateWithDictionary toLowerCase text targetLanguage = Some (join " " ws) /\
    length ws = length words /\
    forall i w, nth_error words i = Some w ->
      (remove_non_word w = "constructor" -> nth_error ws i = Some "function Object() { [native code] }") /\
      (remove_non_word w = "__proto__" -> nth_error ws i = Some "[object Object]") /\
      (find (fun kv => String.eqb (fst kv) (remove_non_word w)) dictionary = None ->
       is_prototype_key (remove_non_word w) = false -> nth_error ws i = Some w).
Proof.
  intros Hd words. destruct (dictionaries_no_prototype_keys _ _ Hd) as [Hc Hp].
  unfold translateWithDictionary. rewrite (translations_not_prototype _ _ Hd), Hd.
  eexists. split; [reflexivity | split; [apply length_map |]].
  intros i w Hw. fold words. rewrite nth_error_map, Hw. cbn [option_map].
  split; [| split].
  - intro E. rewrite E. unfold dict_get. rewrite Hc. reflexivity.
  - intro E. rewrite E. unfold dict_get. rewrite Hp. reflexivity.
  - intros Hf Hk. unfold dict_get. rewrite Hf.
    unfold is_prototype_key in Hk. apply orb_false_iff in Hk as [H1 Hk].
    apply orb_false_iff in Hk as [H2 H3]. rewrite H1, H2, H3. reflexivity.
Qed.

Lemma translateWithDictionary_words_witness :
  translations "pt" = Some dict_pt /\
  let words := split_ws ((fun s => s) "constructor of the audio") in
  exists ws, translateWithDictionary (fun s => s) "constructor of the audio" "pt" = Some (join " " ws) /\
    length ws = length words /\
    forall i w, nth_error words i = Some w ->
      (remove_non_word w = "constructor" -> nth_error ws i = Some "function Object() { [native code] }") /\
      (remove_non_word w = "__proto__" -> nth_error ws i = Some "[object Object]") /\
      (find (fun kv => String.eqb (fst kv) (remove_non_word w)) dict_pt = None ->
       is_prototype_key (remove_non_word w) = false -> nth_error ws i = Some w).
Proof.
  split; [reflexivity |].
  exact (translateWithDictionary_words (fun s => s) "constructor of the audio" "pt" dict_pt eq_refl).
Defined.

(** X7: the audio path is never the video path and has extension
    ".wav"; extraction returns that path when
    the ffmpeg command succeeds and rejects with "Falha na extração de
    áudio: " and the command's error otherwise. *)
Theorem extractAudioFromVideo_result (videoPath : string) (env : Env) (fs : FS) :
  let audioPath := audioPathOf videoPath in
  audioPath <> videoPath /\ Path.extname audioPath = ".wav" /\
  extractAudioFromVideo videoPath env fs =
    match run env (extractCommand videoPath audioPath) fs with
    | (ExecOk _ _, fs1) => (Ret audioPath, fs1)
    | (ExecErr m, fs1) => (Throw ("Falha na extração de áudio: " ++ m), fs1)
    end.
Proof.
  intro audioPath.
  destruct (derived_path "_audio" "wav" ltac:(discriminate) eq_refl eq_refl eq_refl videoPath)
    as [H1 [_ H3]].
  split; [exact H1 | split; [exact H3 |]].
  unfold extractAudioFromVideo, try_catch, bind, execAsync. fold audioPath.
  destruct (run env (extractCommand videoPath audioPath) fs) as [[o e | m] fs1]; reflexivity.
Qed.

End TranslationFacts.

(* ------------------------------------------------------------------ *)
(** ** The services composed, the controller, WhisperService, VideoService *)

Lemma translate_all_identity (toLowerCase : string -> string)
    (google : string -> string -> string -> option string)
    (segs : list Translation.TranslationSegment) (sl tl : string) :
  (forall a b q, google a b q = None \/ google a b q = Some "") ->
  Translation.translations tl = None -> Translation.is_prototype_key tl = false ->
  Translation.translate_all toLowerCase google segs sl tl =
  Some (map (fun seg => {| Translation.start := Translation.start seg; Translation.end_ := Translation.end_ seg;
                           Translation.originalText := Translation.originalText seg;
                           Translation.translatedText := Some (Translation.originalText seg) |}) segs).
Proof.
  intros Hg Hd Hk. induction segs as [| seg rest IH]; [reflexivity |].
  cbn [Translation.translate_all map]. rewrite IH.
  assert (E : Translation.translateText toLowerCase google (Translation.originalText seg) sl tl
              = Some (Translation.originalText seg)).
  { unfold Translation.translateText, Translation.translateWithGoogle, Translation.translateWithDictionary.
    rewrite Hk, Hd.
    destruct (Hg (if String.eqb sl "auto" then "en" else sl) tl (Translation.originalText seg)) as [E | E];
      rewrite E; reflexivity. }
  rewrite E. reflexivity.
Qed.

(** X4: when the translation service gives no usable answer (it fails or
    answers the empty string) and the target language has no dictionary,
    the subtitles the controller builds from [translateSegments] are the
    original segments: same start, end and text, in order. *)
Theorem subtitles_untranslated_without_service (toLowerCase : string -> string)
    (google : string -> string -> string -> option string)
    (segs : list Translation.TranslationSegment) (targetLanguage sourceLanguage : string)
    (r : Translation.TranslationResult) :
  (forall a b q, google a b q = None \/ google a b q = Some "") ->
  Translation.translations targetLanguage = None ->
  Translation.is_prototype_key targetLanguage = false ->
  Translation.translateSegments toLowerCase google segs targetLanguage sourceLanguage = Some r ->
  option_map (map Controller.to_translated) (Translation.segments r) =
  Some (map (fun seg => {| start := Translation.start seg; end_ := Translation.end_ seg;
                           text := Translation.originalText seg |}) segs).
Proof.
  intros Hg Hd Hk Hr. unfold Translation.translateSegments in Hr.
  rewrite (translate_all_identity toLowerCase google segs sourceLanguage targetLanguage Hg Hd Hk) in Hr.
  injection Hr as <-. cbn [Translation.segments option_map]. f_equal.
  rewrite map_map. apply map_ext. intro seg. unfold Controller.to_translated. cbn.
  destruct (String.eqb (Translation.originalText seg) ""); reflexivity.
Qed.

Lemma subtitles_untranslated_without_service_witness :
  (forall a b q, google_down a b q = None \/ google_down a b q = Some "") /\
  Translation.translations "de" = None /\ Translation.is_prototype_key "de" = false /\
  Translation.translateSegments (fun s => s) google_down Translation.fallbackSegments "de" "auto"
    = Some untranslated_result /\
  option_map (map Controller.to_translated) (Translation.segments untranslated_result) =
  Some (map (fun seg => {| start := Translation.start seg; end_ := Translation.end_ seg;
                           text := Translation.originalText seg |}) Translation.fallbackSegments).
Proof.
  assert (Hg : forall a b q, google_down a b q = None \/ google_down a b q = Some "")
    by (intros; left; reflexivity).
  assert (Hr : Translation.translateSegments (fun s => s) google_down Translation.fallbackSegments "de" "auto"
               = Some untranslated_result) by (vm_compute; reflexivity).
  split; [exact Hg | split; [reflexivity | split; [reflexivity | split; [exact Hr |]]]].
  exact (subtitles_untranslated_without_service (fun s => s) google_down
           Translation.fallbackSegments "de" "auto" untranslated_result Hg eq_refl eq_refl Hr).
Defined.

Lemma split_dq (s r cur : string) :
  str_forall dq_literal s = true ->
  split_commands InDouble (s ++ r) cur = split_commands InDouble r (cur ++ s).
Proof.
  revert cur; induction s as [| c s IH]; intros cur H.
  - now rewrite str_app_nil_r.
  - cbn [str_forall] in H. apply andb_true_iff in H as [Hc Hs].
    unfold dq_literal in Hc. apply negb_true_iff in Hc.
    apply orb_false_iff in Hc as [H34 Hc]. apply orb_false_iff in Hc as [H92 _].
    cbn [append split_commands]. rewrite H92, H34. rewrite IH by exact Hs.
    now rewrite str_app_assoc.
Qed.

Lemma split_plain (s r cur : string) :
  str_forall plain_literal s = true ->
  split_commands Plain (s ++ r) cur = split_commands Plain r (cur ++ s).
Proof.
  revert cur; induction s as [| c s IH]; intros cur H.
  - now rewrite str_app_nil_r.
  - cbn [str_forall] in H. apply andb_true_iff in H as [Hc Hs].
    unfold plain_literal, dq_literal in Hc. apply andb_true_iff in Hc as [Hc Hc'].
    apply negb_true_iff in Hc, Hc'.
    apply orb_false_iff in Hc as [H34 Hc]. apply orb_false_iff in Hc as [H92 _].
    apply orb_false_iff in Hc' as [H59 Hc']. apply orb_false_iff in Hc' as [H38 Hc'].
    apply orb_false_iff in Hc' as [H124 H39].
    cbn [append split_commands]. rewrite H59, H38, H124, H92, H34, H39. cbv iota beta delta [orb].
    rewrite IH by exact Hs. now rewrite str_app_assoc.
Qed.


Lemma split_quoted (s r cur : string) :
  str_forall dq_literal s = true ->
  split_commands Plain (dq ++ s ++ dq ++ r) cur = split_commands Plain r (cur ++ dq ++ s ++ dq).
Proof.
  intro Hs. cbn [append dq split_commands]. change (nat_of_ascii "034"%char) with 34. cbn [Nat.eqb orb].
  rewrite split_dq by exact Hs. cbn [append split_commands]. change (nat_of_ascii "034"%char) with 34.
  cbn [Nat.eqb orb].
  f_equal. rewrite !str_app_assoc. reflexivity.
Qed.

Lemma split_quoted_end (s cur : string) :
  str_forall dq_literal s = true ->
  split_commands Plain (dq ++ s ++ dq) cur = [cur ++ dq ++ s ++ dq].
Proof.
  intro Hs. rewrite <- (str_app_nil_r (dq ++ s ++ dq)), !str_app_assoc.
  rewrite split_quoted by exact Hs. reflexivity.
Qed.

Lemma dirname_forall (f : ascii -> bool) (p : string) :
  f "."%char = true -> f "/"%char = true -> str_forall f p = true -> str_forall f (Path.dirname p) = true.
Proof.
  intros Hd Hs Hp. unfold Path.dirname.
  destruct (Path.last_index "/" p 0 None) as [[| i] |]; simpl; try rewrite Hd; try rewrite Hs; try reflexivity.
  apply str_forall_substring. exact Hp.
Qed.

Lemma base_of_forall (f : ascii -> bool) (p : string) :
  str_forall f p = true -> str_forall f (Path.base_of p) = true.
Proof.
  intro Hp. unfold Path.base_of. destruct (Path.last_index "/" p 0 None); [apply str_forall_substring |]; exact Hp.
Qed.

Lemma basename_forall (f : ascii -> bool) (p e : string) :
  str_forall f p = true -> str_forall f (Path.basename p e) = true.
Proof.
  intro Hp. unfold Path.basename. pose proof (base_of_forall f p Hp).
  destruct (andb _ _); [apply str_forall_substring |]; assumption.
Qed.

Lemma join_forall (f : ascii -> bool) (d n : string) :
  f "/"%char = true -> str_forall f d = true -> str_forall f n = true -> str_forall f (Path.join d n) = true.
Proof.
  intros Hs Hd Hn. unfold Path.join. destruct (String.eqb d "."); [exact Hn |].
  rewrite str_forall_app, Hd. simpl. rewrite Hs. exact Hn.
Qed.

Lemma audioPathOf_dq_literal (videoPath : string) :
  str_forall dq_literal videoPath = true -> str_forall dq_literal (Translation.audioPathOf videoPath) = true.
Proof.
  intro Hv. unfold Translation.audioPathOf.
  apply join_forall; [reflexivity | apply dirname_forall; auto |].
  rewrite str_forall_app. rewrite basename_forall by exact Hv. reflexivity.
Qed.

(** X8: for a video path with no double quote, backslash, dollar sign or
    backquote, the audio-extraction command line is one shell command. *)
Theorem extractCommand_single_command (videoPath : string) :
  str_forall dq_literal videoPath = true ->
  shell_commands (Translation.extractCommand videoPath (Translation.audioPathOf videoPath)) =
  [Translation.extractCommand videoPath (Translation.audioPathOf videoPath)].
Proof.
  intro Hv. pose proof (audioPathOf_dq_literal videoPath Hv) as Ha.
  unfold shell_commands, Translation.extractCommand.
  rewrite split_plain by reflexivity. rewrite split_quoted by exact Hv.
  rewrite split_plain by reflexivity. rewrite split_quoted_end by exact Ha.
  f_equal. rewrite !str_app_assoc. reflexivity.
Qed.

Lemma fill_spec (fuel n : nat) (texts : list string) :
  n <= length texts + fuel ->
  Whisper.fill fuel n texts =
  (texts ++ map (fun k => nth (k mod 10) Whisper.genericTexts "") (seq (length texts) (n - length texts)))%list.
Proof.
  revert texts; induction fuel as [| f IH]; intros texts H; simpl.
  - replace (n - length texts) with 0 by lia. now rewrite app_nil_r.
  - destruct (Nat.ltb (length texts) n) eqn:E.
    + apply Nat.ltb_lt in E. rewrite IH by (rewrite length_app; simpl; lia).
      rewrite length_app. simpl length.
      replace (n - length texts) with (S (n - (length texts + 1))) by lia.
      rewrite <- app_assoc. simpl. rewrite Nat.add_1_r. reflexivity.
    + apply Nat.ltb_ge in E. replace (n - length texts) with 0 by lia. now rewrite app_nil_r.
Qed.

Lemma nth_firstn_lt {A : Type} (l : list A) (n i : nat) (d : A) :
  i < n -> nth i (firstn n l) d = nth i l d.
Proof.
  revert n i; induction l as [| x l IH]; intros n i H; destruct n as [| n]; try lia;
    simpl; [destruct i; reflexivity |]. destruct i as [| i]; [reflexivity |]. apply IH. lia.
Qed.

Lemma context_texts_nonempty (context : option Whisper.TranscriptionContext) (t : string) :
  In t (Whisper.context_texts context) -> t <> "".
Proof.
  destruct context as [c |]; simpl; [| tauto].
  destruct (Whisper.truthy (Whisper.topic c)), (Whisper.truthy (Whisper.speaker c)),
    (Whisper.truthy (Whisper.prompt c)); simpl;
    intro H; repeat destruct H as [<- | H]; try contradiction;
    intro E; apply (f_equal String.length) in E; rewrite ?str_length_app in E; simpl in E; lia.
Qed.

Lemma genericTexts_nonempty (k : nat) : k < 10 -> nth k Whisper.genericTexts "" <> "".
Proof. intro H. do 10 (destruct k as [| k]; [discriminate |]). lia. Qed.

Lemma extractCommand_single_command_witness :
  str_forall dq_literal "uploads/clip.mp4" = true /\
  shell_commands (Translation.extractCommand "uploads/clip.mp4" (Translation.audioPathOf "uploads/clip.mp4")) =
  [Translation.extractCommand "uploads/clip.mp4" (Translation.audioPathOf "uploads/clip.mp4")].
Proof.
  split; [reflexivity |]. apply extractCommand_single_command. reflexivity.
Defined.

(** X9: [generateContextualTexts] returns exactly [numSegments] texts:
    the context's texts first (topic, speaker, prompt), then at index i
    the (i mod 10)-th generic text; none of them is empty. *)
Theorem generateContextualTexts_spec (context : option Whisper.TranscriptionContext) (numSegments : nat) :
  let texts := Whisper.generateContextualTexts context numSegments in
  let k := length (Whisper.context_texts context) in
  length texts = numSegments /\
  (forall i, i < numSegments ->
     nth i texts "" = if Nat.ltb i k then nth i (Whisper.context_texts context) ""
                      else nth (i mod 10) Whisper.genericTexts "") /\
  (forall t, In t texts -> t <> "").
Proof.
  intros texts k. unfold texts, Whisper.generateContextualTexts.
  rewrite fill_spec by lia. fold k.
  set (g := fun k0 => nth (k0 mod 10) Whisper.genericTexts "").
  split; [| split].
  - rewrite length_firstn, length_app, length_map, length_seq. fold k. lia.
  - intros i Hi. rewrite nth_firstn_lt by exact Hi.
    destruct (Nat.ltb i k) eqn:E.
    + apply Nat.ltb_lt in E. apply app_nth1. exact E.
    + apply Nat.ltb_ge in E. rewrite app_nth2 by exact E. fold k.
      rewrite nth_indep with (d' := g 0) by (rewrite length_map, length_seq; lia).
      rewrite map_nth, seq_nth by lia. unfold g. f_equal. f_equal. lia.
  - intros t Ht.
    assert (Hl : In t (Whisper.context_texts context ++ map g (seq k (numSegments - k)))).
    { rewrite <- (firstn_skipn numSegments). apply in_or_app. now left. }
    apply in_app_or in Hl as [Hl | Hl]; [exact (context_texts_nonempty context t Hl) |].
    apply in_map_iff in Hl as [j [<- _]]. unfold g.
    apply genericTexts_nonempty, Nat.mod_upper_bound. discriminate.
Qed.

Lemma exists_at_false_files (fs : FS) (p : string) : exists_at fs p = false -> files fs p = None.
Proof. unfold exists_at. destruct (files fs p); [discriminate | reflexivity]. Qed.

(** X10: [cleanupAudioFile] always resolves and touches nothing but the
    file at its path, which it deletes exactly when the path contains
    "_audio.wav" and the deletion is not refused; directories stay. *)
Theorem cleanupAudioFile_effect (audioPath : string) (env : Env) (fs : FS) :
  let r := Whisper.cleanupAudioFile audioPath env fs in
  fst r = Ret tt /\ dirs (snd r) = dirs fs /\
  forall q, files (snd r) q =
    if String.eqb q audioPath && Whisper.includes audioPath "_audio.wav"
       && match io_error env (Unlink audioPath) with None => true | Some _ => false end
    then None else files fs q.
Proof.
  intro r. subst r. unfold Whisper.cleanupAudioFile, try_catch, bind, existsSync. cbv beta iota.
  destruct (exists_at fs audioPath) eqn:Ex; destruct (Whisper.includes audioPath "_audio.wav") eqn:Ei;
    cbn [andb]; cbv beta iota.
  - unfold unlinkSync. destruct (io_error env (Unlink audioPath)) eqn:Eio;
      [| destruct (files fs audioPath) eqn:Ef]; cbn;
      (split; [reflexivity | split; [reflexivity |]]); intro q;
      destruct (String.eqb q audioPath) eqn:Eq; cbn [andb]; try reflexivity.
    apply String.eqb_eq in Eq. subst q. rewrite Ef. reflexivity.
  - split; [reflexivity | split; [reflexivity |]]. intro q.
    destruct (String.eqb q audioPath); reflexivity.
  - split; [reflexivity | split; [reflexivity |]]. intro q.
    destruct (String.eqb q audioPath) eqn:Eq; cbn [andb]; [| reflexivity].
    apply String.eqb_eq in Eq. subst q. destruct (io_error env (Unlink audioPath)); [reflexivity |].
    cbn. apply exists_at_false_files, Ex.
  - split; [reflexivity | split; [reflexivity |]]. intro q.
    destruct (String.eqb q audioPath); reflexivity.
Qed.

Lemma keeps_ret {A : Type} (q : string) (a : A) : keeps q (ret a).
Proof. intros env fs. reflexivity. Qed.

Lemma keeps_existsSync (q p : string) : keeps q (existsSync p).
Proof. intros env fs. reflexivity. Qed.

Lemma keeps_unlinkSync (q p : string) : q <> p -> keeps q (unlinkSync p).
Proof.
  intros Hq env fs. unfold unlinkSync.
  destruct (io_error env (Unlink p)); [reflexivity |]. destruct (files fs p); [| reflexivity].
  apply files_fs_write_ne. exact Hq.
Qed.

Lemma keeps_bind {A B : Type} (q : string) (m : M A) (k : A -> M B) :
  keeps q m -> (forall a, keeps q (k a)) -> keeps q (bind m k).
Proof.
  intros Hm Hk env fs. unfold bind. specialize (Hm env fs).
  destruct (m env fs) as [[a | e] fs1]; simpl in *; [rewrite Hk |]; exact Hm.
Qed.

Lemma keeps_try_catch {A : Type} (q : string) (m : M A) (h : string -> M A) :
  keeps q m -> (forall e, keeps q (h e)) -> keeps q (try_catch m h).
Proof.
  intros Hm Hh env fs. unfold try_catch. specialize (Hm env fs).
  destruct (m env fs) as [[a | e] fs1]; simpl in *; [| rewrite Hh]; exact Hm.
Qed.

Lemma cleanup_after_error_keeps (p q : string) :
  q <> p -> q <> Controller.possibleAudioPath p -> keeps q (Controller.cleanup_after_error (Some p)).
Proof.
  intros H1 H2. unfold Controller.cleanup_after_error.
  apply keeps_bind; [apply keeps_bind; [apply keeps_existsSync | intros [|]] | intros _].
  - apply keeps_unlinkSync, H1.
  - apply keeps_ret.
  - apply keeps_try_catch; [| intros; apply keeps_ret]. cbv zeta.
    destruct (String.eqb _ ""); [apply keeps_ret |].
    apply keeps_bind; [apply keeps_existsSync | intros [|]]; [apply keeps_unlinkSync, H2 | apply keeps_ret].
Qed.

Lemma ext_tail_slash (a b : string) : Controller.ext_tail (a ++ String "/" b) = false.
Proof.
  induction a as [| c a IH]; [reflexivity |]. cbn [append Controller.ext_tail].
  destruct (a ++ String "/" b) eqn:E; [destruct a; discriminate |]. rewrite IH. apply andb_false_r.
Qed.

Lemma replace_ext_slash (a b rep : string) :
  Controller.replace_ext (a ++ String "/" b) rep = a ++ String "/" (Controller.replace_ext b rep).
Proof.
  induction a as [| c a IH]; [reflexivity |]. cbn [append Controller.replace_ext].
  rewrite ext_tail_slash, andb_false_r, IH. reflexivity.
Qed.

Lemma replace_ext_nodot (b rep : string) : nochar "." b = true -> Controller.replace_ext b rep = b.
Proof.
  unfold nochar. induction b as [| c b IH]; intro H; [reflexivity |]. cbn [str_forall] in H.
  apply andb_true_iff in H as [Hc Hb]. apply negb_true_iff in Hc. rewrite Ascii.eqb_sym in Hc.
  cbn [Controller.replace_ext]. rewrite Hc, IH by exact Hb. reflexivity.
Qed.

(** X11: for an uploaded file stored without extension (as the upload
    middleware names it), the catch branch's [replace(/\.[^/.]+$/, ...)]
    leaves the path unchanged, while the extracted audio sits at
    [<name>_audio.wav]; the error clean-up never touches that file. *)
Theorem transcribeAndGenerateVideo_error_keeps_audio (dir f : string) (env : Env) (fs : FS) :
  dir <> "" -> nochar "/" f = true -> nochar "." f = true ->
  let p := dir ++ String "/" f in
  Controller.possibleAudioPath p = p /\
  Translation.audioPathOf p = Path.join dir (f ++ "_audio.wav") /\
  files (snd (Controller.cleanup_after_error (Some p) env fs)) (Translation.audioPathOf p)
    = files fs (Translation.audioPathOf p).
Proof.
  intros Hd Hs Hdot p.
  assert (Hp : Controller.possibleAudioPath p = p).
  { unfold Controller.possibleAudioPath, p. rewrite replace_ext_slash, replace_ext_nodot by exact Hdot.
    reflexivity. }
  destruct (derived_path "_audio" "wav" ltac:(discriminate) eq_refl eq_refl eq_refl p) as [Hne _].
  destruct (extname_nodot f Hs Hdot) as [He Hb].
  split; [exact Hp | split].
  - unfold Translation.audioPathOf, p. rewrite dirname_slash by assumption.
    rewrite extname_base, base_of_slash, He, basename_base, base_of_slash, Hb by exact Hs. reflexivity.
  - apply cleanup_after_error_keeps; [exact Hne | rewrite Hp; exact Hne].
Qed.

Lemma transcribeAndGenerateVideo_error_keeps_audio_witness :
  "temp" <> "" /\ nochar "/" "3f2a9c0d" = true /\ nochar "." "3f2a9c0d" = true /\
  let p := "temp" ++ String "/" "3f2a9c0d" in
  Controller.possibleAudioPath p = p /\
  Translation.audioPathOf p = Path.join "temp" ("3f2a9c0d" ++ "_audio.wav") /\
  files (snd (Controller.cleanup_after_error (Some p) env_render_fails fs_upload)) (Translation.audioPathOf p)
    = files fs_upload (Translation.audioPathOf p).
Proof.
  split; [discriminate | split; [reflexivity | split; [reflexivity |]]].
  apply (transcribeAndGenerateVideo_error_keeps_audio "temp" "3f2a9c0d" env_render_fails fs_upload);
    [discriminate | reflexivity | reflexivity].
Defined.

Lemma digits_rev_range (fuel : nat) (base n : Z) :
  (0 < base)%Z -> (0 <= n)%Z -> forall d, In d (Js.digits_rev fuel base n) -> (0 <= d < base)%Z.
Proof.
  revert n; induction fuel as [| f IH]; intros n Hb Hn d H; simpl in H; [contradiction |].
  destruct (Z.ltb n base) eqn:E.
  - destruct H as [<- | []]. apply Z.ltb_lt in E. lia.
  - destruct H as [<- | H].
    + apply Z.mod_pos_bound. exact Hb.
    + apply (IH (n / base)%Z Hb); [apply Z.div_pos; lia | exact H].
Qed.

Lemma str_forall_string_of_chars (f : ascii -> bool) (l : list ascii) :
  str_forall f (Js.string_of_chars l) = forallb f l.
Proof. induction l as [| c l IH]; simpl; [reflexivity | now rewrite IH]. Qed.

Lemma digit_not_slash (d : Z) : (0 <= d < 10)%Z -> Ascii.eqb "/" (Js.digit_char d) = false.
Proof.
  intro Hd. unfold Js.digit_char. replace (Z.ltb d 10) with true by (symmetry; apply Z.ltb_lt; lia).
  destruct (Ascii.eqb "/" _) eqn:E; [| reflexivity].
  apply Ascii.eqb_eq, (f_equal nat_of_ascii) in E.
  assert (Hn : (Z.to_nat d < 10)%nat) by (apply Nat2Z.inj_lt; rewrite Z2Nat.id by lia; simpl; lia).
  rewrite Ascii.nat_ascii_embedding in E by (clear E; lia). change (nat_of_ascii "/") with 47 in E. lia.
Qed.

Lemma radix_string_nochar (n : Z) : (0 <= n)%Z -> nochar "/" (Js.radix_string 10 n) = true.
Proof.
  intro Hn. unfold nochar, Js.radix_string. rewrite str_forall_string_of_chars.
  apply forallb_forall. intros c Hc. apply in_rev in Hc. apply in_map_iff in Hc as [d [<- Hd]].
  apply digits_rev_range in Hd; [| lia | exact Hn]. rewrite digit_not_slash by exact Hd. reflexivity.
Qed.

Lemma int_toString_nochar (z : Z) : nochar "/" (Js.int_toString 10 z) = true.
Proof.
  unfold Js.int_toString. destruct (Z.ltb z 0) eqn:E.
  - apply Z.ltb_lt in E. apply radix_string_nochar. lia.
  - apply Z.ltb_ge in E. apply radix_string_nochar. lia.
Qed.

(** X12: when the random suffix has no '/', the output path is never the
    input path and has extension ".mp4". *)
Theorem generateOutputPath_fresh (inputPath : string) (env : Env) (fs : FS) :
  nochar "/" (rand_out env) = true ->
  let outputPath := outputPathOf env inputPath in
  generateOutputPath inputPath env fs = (Ret outputPath, fs) /\
  outputPath <> inputPath /\ Path.extname outputPath = ".mp4".
Proof.
  intros Hr outputPath.
  set (x := "_subtitled_" ++ Js.int_toString 10 (now_out env) ++ "_" ++ rand_out env).
  assert (Hx : nochar "/" x = true).
  { unfold x, nochar. rewrite !str_forall_app. cbn [str_forall].
    fold (nochar "/" (Js.int_toString 10 (now_out env))) (nochar "/" (rand_out env)).
    rewrite int_toString_nochar, Hr. reflexivity. }
  assert (Eo : outputPath = Path.join (Path.dirname inputPath)
                 (Path.basename inputPath (Path.extname inputPath) ++ x ++ String "." "mp4")).
  { unfold outputPath, outputPathOf, x. rewrite !str_app_assoc. reflexivity. }
  destruct (derived_path x "mp4" ltac:(discriminate) Hx eq_refl eq_refl inputPath) as [H1 [_ H3]].
  rewrite Eo. split; [rewrite <- Eo; reflexivity | split; [exact H1 | exact H3]].
Qed.

Lemma generateOutputPath_fresh_witness :
  nochar "/" (rand_out env_render_fails) = true /\
  let outputPath := outputPathOf env_render_fails "temp/abc" in
  generateOutputPath "temp/abc" env_render_fails fs_empty = (Ret outputPath, fs_empty) /\
  outputPath <> "temp/abc" /\ Path.extname outputPath = ".mp4".
Proof.
  split; [reflexivity |]. apply generateOutputPath_fresh. reflexivity.
Defined.

(** X13: once ffmpeg is found, a failure to write the subtitle file ends
    the call with failure and "Erro na geração: " plus that error; no
    render command is run and the file system is left as the subtitle
    builder left it. *)
Theorem generateVideoWithSubtitles_srt_failure (inputVideoPath : string) (segments : list TranslatedSegment)
    (style : SubtitleStyle) (env : Env) (fs fs1 : FS) (o e err : string) :
  run env "ffmpeg -version" fs = (ExecOk o e, fs1) ->
  fst (generateSRTFile segments env fs1) = Throw err ->
  generateVideoWithSubtitles inputVideoPath segments style env fs =
  (Ret {| success := false; message := "Erro na geração: " ++ err; outputPath := None |},
   snd (generateSRTFile segments env fs1)).
Proof.
  intros Hrun Hsrt. unfold generateVideoWithSubtitles, try_catch, bind, execAsync, ret.
  rewrite Hrun. cbv beta iota delta [negb].
  destruct (generateSRTFile segments env fs1) as [[a | m] fs2]; cbn in Hsrt; [discriminate |].
  injection Hsrt as ->. reflexivity.
Qed.

Lemma generateVideoWithSubtitles_srt_failure_witness :
  run env_readonly "ffmpeg -version" fs_empty = (ExecOk "ffmpeg version 6.0" EmptyString, fs_empty) /\
  fst (generateSRTFile segs_hello env_readonly fs_empty) =
    Throw "EACCES: permission denied, open 'temp/subtitles_1700000000000_k3j9x0a1b.srt'" /\
  generateVideoWithSubtitles "temp/abc" segs_hello style_default env_readonly fs_empty =
  (Ret {| success := false;
          message := "Erro na geração: " ++ "EACCES: permission denied, open 'temp/subtitles_1700000000000_k3j9x0a1b.srt'";
          outputPath := None |},
   snd (generateSRTFile segs_hello env_readonly fs_empty)).
Proof.
  assert (H1 : run env_readonly "ffmpeg -version" fs_empty = (ExecOk "ffmpeg version 6.0" EmptyString, fs_empty))
    by reflexivity.
  assert (H2 : fst (generateSRTFile segs_hello env_readonly fs_empty) =
    Throw "EACCES: permission denied, open 'temp/subtitles_1700000000000_k3j9x0a1b.srt'")
    by (vm_compute; reflexivity).
  split; [exact H1 | split; [exact H2 |]].
  exact (generateVideoWithSubtitles_srt_failure "temp/abc" segs_hello style_default env_readonly
           fs_empty fs_empty _ _ _ H1 H2).
Defined.
